(** * Weighted linear fits of the physics-lab analysis scripts

    The three scripts (gas-thermometer heating, specific heat of air,
    vapour-pressure cooling) read two columns of a table, convert them,
    call [scipy.optimize.curve_fit] on [linear_model] with
    [absolute_sigma=True], turn the result into correlated uncertain
    numbers with [uncertainties.correlated_values] and derive one physical
    quantity from them.

    Numbers are real numbers here: the development is about the arithmetic
    the scripts ask for, in exact arithmetic, not about its rounding in
    binary64.  Arrays are lists. *)

From Stdlib Require Import String Reals Lra Lia Psatz Bool Arith List.
Import ListNotations.
Local Open Scope R_scope.

(** ** Arrays *)

Module Array.

Definition sum (l : list R) : R := fold_right Rplus 0 l.

(** Element-wise combination of two arrays of one length. *)
Fixpoint zipWith (f : R -> R -> R) (a b : list R) : list R :=
  match a, b with
  | x :: a', y :: b' => f x y :: zipWith f a' b'
  | _, _ => []
  end.

(** The points [(x_i, y_i, sigma_i)] of three arrays of one length. *)
Fixpoint zip3 (a b c : list R) : list (R * R * R) :=
  match a, b, c with
  | x :: a', y :: b', s :: c' => (x, y, s) :: zip3 a' b' c'
  | _, _, _ => []
  end.

(** Sum of a quantity over the points. *)
Definition sum_over (g : R * R * R -> R) (pts : list (R * R * R)) : R :=
  sum (map g pts).

End Array.

(** ** Exceptions the scripts and their libraries raise *)

Inductive exn : Type :=
| ValueError
| TypeError
| ZeroDivisionError
| FileNotFoundError
| PermissionError.

(** ** scipy.optimize.curve_fit on the two-parameter linear model *)

(** [linear_model] of the three scripts (parameters [m, b]; [m, c] in the
    cooling script). *)
Definition linear_model (x m b : R) : R := m * x + b.

Record mat2 : Type := Mat2 { c00 : R; c01 : R; c10 : R; c11 : R }.



Definition mat2_scale (k : R) (A : mat2) : mat2 :=
  Mat2 (k * c00 A) (k * c01 A) (k * c10 A) (k * c11 A).

Definition det2 (A : mat2) : R := c00 A * c11 A - c01 A * c10 A.

Definition inv2 (A : mat2) : mat2 :=
  Mat2 (c11 A / det2 A) (- c01 A / det2 A)
       (- c10 A / det2 A) (c00 A / det2 A).

Module Scipy.
Import Array.

(** The function [curve_fit] hands to the least-squares solver: the
    residual of the model divided by [sigma], point by point. *)
Definition weighted_residual (m b : R) (p : R * R * R) : R :=
  let '(x, y, s) := p in (y - linear_model x m b) / s.

(** The cost the solver minimises: the sum of the squared weighted
    residuals. *)
Definition chi2 (pts : list (R * R * R)) (m b : R) : R :=
  sum_over (fun p => (weighted_residual m b p)²) pts.

(** Rows of the Jacobian of the weighted model in [(m, b)], and the
    weighted ordinate. *)
Definition jac_m (p : R * R * R) : R := let '(x, _, s) := p in x / s.
Definition jac_b (p : R * R * R) : R := let '(_, _, s) := p in 1 / s.
Definition y_w (p : R * R * R) : R := let '(_, y, s) := p in y / s.

(** The matrix [J^T J] of the normal equations (the Gauss-Newton Hessian
    of half the cost) and the right-hand side [J^T y]. *)
Definition normal_matrix (pts : list (R * R * R)) : mat2 :=
  Mat2 (sum_over (fun p => jac_m p * jac_m p) pts)
       (sum_over (fun p => jac_m p * jac_b p) pts)
       (sum_over (fun p => jac_b p * jac_m p) pts)
       (sum_over (fun p => jac_b p * jac_b p) pts).

Definition normal_rhs (pts : list (R * R * R)) : R * R :=
  (sum_over (fun p => jac_m p * y_w p) pts,
   sum_over (fun p => jac_b p * y_w p) pts).

Definition mat2_apply (A : mat2) (v : R * R) : R * R :=
  (c00 A * fst v + c01 A * snd v, c10 A * fst v + c11 A * snd v).

(** What a call [curve_fit(linear_model, xdata, ydata, sigma=sigma,
    absolute_sigma=True)] comes back with. *)
Inductive fit_outcome : Type :=
| Fit (popt : R * R) (pcov : mat2)
    (** the optimum and the covariance of the parameters *)
| FitIndeterminate
    (** the call returns, with an OptimizeWarning: the covariance could
        not be estimated and [pcov] is filled with [inf]; the normal
        equations do not determine [popt] *)
| FitRaises (e : exn).

(** [curve_fit] for one-dimensional arrays and nonzero sigmas, in exact
    arithmetic: [popt] is the point the solver converges to, the solution
    of the normal equations, and with [absolute_sigma=True] [pcov] is the
    inverse of [J^T J] as it is.  When [J^T J] has no inverse the call
    still returns, without a covariance.  An empty [ydata] is refused with
    ValueError and fewer points than parameters with TypeError; arrays of
    different lengths cannot be combined point by point (ValueError). *)
Definition curve_fit (xdata ydata sigma : list R) : fit_outcome :=
  if negb ((length xdata =? length ydata)%nat
           && (length sigma =? length ydata)%nat)
  then FitRaises ValueError
  else if (length ydata =? 0)%nat then FitRaises ValueError
  else if (length ydata <? 2)%nat then FitRaises TypeError
  else
    let pts := zip3 xdata ydata sigma in
    let A := normal_matrix pts in
    if Req_EM_T (det2 A) 0 then FitIndeterminate
    else Fit (mat2_apply (inv2 A) (normal_rhs pts)) (inv2 A).

End Scipy.

(** ** The uncertainties package: numbers with linearly propagated errors *)

Module Uncertainties.

(** An uncertain number is its nominal value and the derivatives with
    respect to the random variables of the script: the two fit parameters
    made by [correlated_values(popt, pcov)], and [VOLUME], the only
    [ufloat] a script creates.  Arithmetic on uncertain numbers carries
    the derivatives along by the chain rule. *)
Record ufloat : Type :=
  UFloat { nominal : R; d_slope : R; d_intercept : R; d_volume : R }.

(** A plain float in an expression with uncertain numbers. *)
Definition const (c : R) : ufloat := UFloat c 0 0 0.

Definition neg (u : ufloat) : ufloat :=
  UFloat (- nominal u) (- d_slope u) (- d_intercept u) (- d_volume u).

Definition add (u v : ufloat) : ufloat :=
  UFloat (nominal u + nominal v) (d_slope u + d_slope v)
         (d_intercept u + d_intercept v) (d_volume u + d_volume v).

Definition sub (u v : ufloat) : ufloat :=
  UFloat (nominal u - nominal v) (d_slope u - d_slope v)
         (d_intercept u - d_intercept v) (d_volume u - d_volume v).

Definition mul (u v : ufloat) : ufloat :=
  UFloat (nominal u * nominal v)
         (d_slope u * nominal v + nominal u * d_slope v)
         (d_intercept u * nominal v + nominal u * d_intercept v)
         (d_volume u * nominal v + nominal u * d_volume v).

Definition div (u v : ufloat) : ufloat :=
  UFloat (nominal u / nominal v)
         ((d_slope u * nominal v - d_slope v * nominal u) / (nominal v)²)
         ((d_intercept u * nominal v - d_intercept v * nominal u)
            / (nominal v)²)
         ((d_volume u * nominal v - d_volume v * nominal u) / (nominal v)²).

(** [correlated_values(popt, pcov)]: the two parameters as uncertain
    numbers whose joint covariance is [pcov]. *)
Definition correlated_values (popt : R * R) : ufloat * ufloat :=
  (UFloat (fst popt) 1 0 0, UFloat (snd popt) 0 1 0).

(** [ufloat(value, sigma)] for [VOLUME]: an independent variable. *)
Definition volume_variable (value : R) : ufloat := UFloat value 0 0 1.

(** The random variables behind the uncertain numbers of a run: the
    covariance handed to [correlated_values] (symmetric and positive
    semi-definite when it comes from [curve_fit]) and the standard
    deviation of [VOLUME]. *)
Record sources : Type := Sources { fit_cov : mat2; volume_sigma : R }.

(** The quadratic form [grad . Cov . grad^T] of a gradient in [(m, b)]. *)
Definition quad_form (C : mat2) (gm gb : R) : R :=
  gm * (c00 C * gm + c01 C * gb) + gb * (c10 C * gm + c11 C * gb).

Definition variance (src : sources) (u : ufloat) : R :=
  quad_form (fit_cov src) (d_slope u) (d_intercept u)
  + (d_volume u * volume_sigma src)².

(** The attribute [.s]; [.n] is [nominal]. *)
Definition std_dev (src : sources) (u : ufloat) : R :=
  sqrt (variance src u).



(** Formulas in the two fit parameters, written with the arithmetic the
    package overloads. *)
Inductive formula : Type :=
| Slope
| Intercept
| Float (c : R)
| Neg (e : formula)
| Add (e1 e2 : formula)
| Sub (e1 e2 : formula)
| Mul (e1 e2 : formula)
| Div (e1 e2 : formula).


(** The formula computed on uncertain numbers, as the script does. *)
Fixpoint ueval (e : formula) (slope intercept : ufloat) : ufloat :=
  match e with
  | Slope => slope
  | Intercept => intercept
  | Float c => const c
  | Neg e => neg (ueval e slope intercept)
  | Add e1 e2 => add (ueval e1 slope intercept) (ueval e2 slope intercept)
  | Sub e1 e2 => sub (ueval e1 slope intercept) (ueval e2 slope intercept)
  | Mul e1 e2 => mul (ueval e1 slope intercept) (ueval e2 slope intercept)
  | Div e1 e2 => div (ueval e1 slope intercept) (ueval e2 slope intercept)
  end.


(** Propagation of a fit result through a formula: the pair
    [(g.n, g.s)]. *)
Definition propagate (popt : R * R) (pcov : mat2) (g : formula) : R * R :=
  let '(slope, intercept) := correlated_values popt in
  let u := ueval g slope intercept in
  (nominal u, std_dev (Sources pcov 0) u).

End Uncertainties.

(** ** What a script's analysis ends in *)

Inductive outcome (A : Type) : Type :=
| Reported (a : A)
    (** the numbers of the report *)
| NonFinite
    (** the script goes on with [inf] and [nan], after a fit whose
        covariance is indeterminate *)
| Raises (e : exn).
Arguments Reported {A} a.
Arguments NonFinite {A}.
Arguments Raises {A} e.

(** The two columns a script reads from its table, row by row. *)
Definition dataframe : Type := list (R * R).

(** An uncertain number as the report prints it: [(u.n, u.s)]. *)
Definition shown (src : Uncertainties.sources) (u : Uncertainties.ufloat)
  : R * R :=
  (Uncertainties.nominal u, Uncertainties.std_dev src u).

(** ** v5_gas_thermometer_heating.py *)

Module Heating.
Import Scipy Uncertainties.

Definition SIGMA_P : R := 5.
Definition SIGMA_T : R := 1.
Definition lit_value : R := - (27315 / 100).

Record report : Type :=
  Report { slope : R * R; intercept : R * R; T0 : R * R;
           sigma_deviation : R }.

(** The call of the script: one sigma, [SIGMA_P], for every point. *)
Definition fit (T_celsius p_hPa : list R) : fit_outcome :=
  curve_fit T_celsius p_hPa (repeat SIGMA_P (length p_hPa)).

(** Absolute zero, [T0 = -intercept / slope]. *)
Definition T0_of (slope intercept : ufloat) : ufloat :=
  div (neg intercept) slope.

Definition analysis (df : dataframe) : outcome report :=
  let T_celsius := map fst df in
  let p_hPa := map snd df in
  match fit T_celsius p_hPa with
  | FitRaises e => Raises e
  | FitIndeterminate => NonFinite
  | Fit popt pcov =>
      let src := Sources pcov 0 in
      let '(slope, intercept) := correlated_values popt in
      if Req_EM_T (nominal slope) 0 then Raises ZeroDivisionError
      else
        let T0 := T0_of slope intercept in
        Reported
          (Report (shown src slope) (shown src intercept) (shown src T0)
                  (Rabs (nominal T0 - lit_value) / std_dev src T0))
  end.

End Heating.

(** ** v5_specific_heat.py *)

Module SpecificHeat.
Import Scipy Uncertainties.

Definition SIGMA_H : R := 5 / 10.
Definition V_ERR : R := 129 / 1000000.
Definition C : R := 20 / 1000000.
Definition RHO_WATER : R := 1000.
Definition G : R := 981 / 100.
Definition VOLUME_VAL : R := 32 / 10000.

Definition VOLUME : ufloat := volume_variable VOLUME_VAL.

Record report : Type :=
  Report { slope : R * R; intercept : R * R; kappa : R * R;
           sigma_dev_k : R; f_measured : R * R }.

Definition Delta_Q (U_volt : list R) : list R :=
  map (fun U => 5 / 10 * C * U ^ 2) U_volt.


Definition Delta_p (Delta_H_mm : list R) : list R :=
  map (fun h => RHO_WATER * G * (h / 1000)) Delta_H_mm.

Definition sigma_p (Delta_H_mm : list R) : list R :=
  repeat (RHO_WATER * G * (SIGMA_H / 1000)) (length (Delta_p Delta_H_mm)).

Definition fit (U_volt Delta_H_mm : list R) : fit_outcome :=
  curve_fit (Delta_Q U_volt) (Delta_p Delta_H_mm) (sigma_p Delta_H_mm).

(** [kappa = slope * VOLUME + 1]. *)
Definition kappa_of (slope : ufloat) : ufloat :=
  add (mul slope VOLUME) (const 1).

(** [f_measured = 2.0 / (kappa - 1)]. *)
Definition f_of (kappa : ufloat) : ufloat :=
  div (const 2) (sub kappa (const 1)).

Definition analysis (df : dataframe) : outcome report :=
  let U_volt := map fst df in
  let Delta_H_mm := map snd df in
  match fit U_volt Delta_H_mm with
  | FitRaises e => Raises e
  | FitIndeterminate => NonFinite
  | Fit popt pcov =>
      let src := Sources pcov V_ERR in
      let '(slope, intercept) := correlated_values popt in
      let kappa := kappa_of slope in
      if Req_EM_T (nominal kappa - 1) 0 then Raises ZeroDivisionError
      else
        let f_measured := f_of kappa in
        Reported
          (Report (shown src slope) (shown src intercept) (shown src kappa)
                  (Rabs (nominal kappa - 140 / 100) / std_dev src kappa)
                  (shown src f_measured))
  end.

End SpecificHeat.

(** ** v7_cooling.py *)

Module Cooling.
Import Array Scipy Uncertainties.

Definition R_GAS : R := 831446 / 100000.
Definition LIT_VAL_100C : R := 4066 / 100.

Record report : Type :=
  Report { slope : R * R; intercept : R * R; Delta_H_kJ : R * R;
           sigma_dev : R }.

Definition A : R := 39083 / 10000000.
Definition B : R := - (5775 / 10000000000).
Definition R0 : R := 1000.

Definition discriminant (R_ohm : R) : R := A ^ 2 - 4 * B * (1 - R_ohm / R0).

Definition resistance_to_temperature (R_ohm : R) : R :=
  (- A + sqrt (discriminant R_ohm)) / (2 * B).

Definition T_celsius (R_ohm : list R) : list R :=
  map resistance_to_temperature R_ohm.

Definition T_kelvin (R_ohm : list R) : list R :=
  map (fun T => T + 27315 / 100) (T_celsius R_ohm).

Definition sigma_T (R_ohm : list R) : list R :=
  map (fun T => sqrt ((1 / (385 / 100)) ^ 2 + (3 / 10 + 5 / 1000 * T) ^ 2))
      (T_celsius R_ohm).

Definition sigma_p (p_bar : list R) : list R :=
  map (fun p => 1 / 100 * p) p_bar.

Definition x_val (R_ohm : list R) : list R :=
  map (fun T => 1 / T) (T_kelvin R_ohm).

Definition y_val (p_bar : list R) : list R := map ln p_bar.

Definition x_err (R_ohm : list R) : list R :=
  zipWith (fun s T => s / T ^ 2) (sigma_T R_ohm) (T_kelvin R_ohm).

Definition y_err (p_bar : list R) : list R :=
  zipWith (fun s p => s / p) (sigma_p p_bar) p_bar.

(** [sigma_eff = sqrt(y_err**2 + (m_init * x_err)**2)]. *)
Definition sigma_eff (m_init : R) (y_err x_err : list R) : list R :=
  zipWith (fun ye xe => sqrt (ye ^ 2 + (m_init * xe) ^ 2)) y_err x_err.

(** The two calls of [curve_fit]: the slope of the first enters the
    sigmas of the second, whose result is the one kept.  A first call
    without a covariance leaves a slope the data do not determine; the
    second call, on the same abscissas, is without a covariance too,
    whatever that slope is. *)
Definition fit (x_val y_val x_err y_err : list R) : fit_outcome :=
  match curve_fit x_val y_val y_err with
  | Fit popt_init _ =>
      let m_init := fst popt_init in
      curve_fit x_val y_val (sigma_eff m_init y_err x_err)
  | FitIndeterminate => FitIndeterminate
  | FitRaises e => FitRaises e
  end.

(** A row gives finite [x_val] and [y_val]: the pressure has a logarithm,
    the discriminant a square root and the temperature an inverse.
    [curve_fit] refuses [inf] and [nan] in its data with ValueError. *)
Definition finite_row (row : R * R) : bool :=
  let '(p, R_ohm) := row in
  (if Rlt_dec 0 p then true else false)
  && (if Rle_dec 0 (discriminant R_ohm) then true else false)
  && (if Req_EM_T (resistance_to_temperature R_ohm + 27315 / 100) 0
      then false else true).

(** [Delta_H_kJ = -slope * R_GAS / 1000.0]. *)
Definition Delta_H_kJ_of (slope : ufloat) : ufloat :=
  div (mul (neg slope) (const R_GAS)) (const 1000).

Definition analysis (df : dataframe) : outcome report :=
  let p_bar := map fst df in
  let R_ohm := map snd df in
  if negb (forallb finite_row df) then Raises ValueError
  else
    match fit (x_val R_ohm) (y_val p_bar) (x_err R_ohm) (y_err p_bar) with
    | FitRaises e => Raises e
    | FitIndeterminate => NonFinite
    | Fit popt pcov =>
        let src := Sources pcov 0 in
        let '(slope, intercept) := correlated_values popt in
        let Delta_H_kJ := Delta_H_kJ_of slope in
        Reported
          (Report (shown src slope) (shown src intercept)
                  (shown src Delta_H_kJ)
                  (Rabs (nominal Delta_H_kJ - LIT_VAL_100C)
                     / std_dev src Delta_H_kJ))
    end.

End Cooling.

(** ** The run of a script: directory, loading, analysis, outputs *)

(** The input file as [pd.read_csv] finds it. *)
Inductive input_file : Type :=
| Absent                     (** no such file: FileNotFoundError *)
| Unreadable                 (** the file is there and may not be read:
                                 PermissionError *)
| Table (df : dataframe).    (** a table with the two columns *)

Record world : Type :=
  World { output_dir_exists : bool; input : input_file }.

(** What a run ends in. *)
Inductive status : Type :=
| ExitClean                  (** the end of the script is reached *)
| Unhandled (e : exn)        (** an exception leaves the script *)
| LeftFiniteArithmetic.      (** the analysis went on with [inf] or [nan];
                                 the run is not followed further *)

Section Script.

Variable report : Type.
Variables FILENAME OUTPUT_DIR PLOT_FILE TXT_FILE : string.
Variable analysis : dataframe -> outcome report.

Inductive message : Type :=
| CreatedDirectory (dir : string)
| SuccessfullyLoaded (filename : string)
| ErrorLoadingFile (e : exn)
| ResultsText (r : report)
| ResultsSavedTo (path : string)
| PlotSavedTo (path : string).

(** What a run does to the outside, in order. *)
Inductive event : Type :=
| EvMakedirs (dir : string)
| EvPrint (msg : message)
| EvAnalysis (df : dataframe)
| EvWriteFile (path : string) (r : report)
| EvSavefig (path : string)
| EvShow.

(** [os.path.join]. *)
Definition path_join (dir file : string) : string :=
  (dir ++ "/" ++ file)%string.

(** [pd.read_csv(filename, sep=None, engine='python')]. *)
Definition read_csv (w : world) : dataframe + exn :=
  match input w with
  | Absent => inr FileNotFoundError
  | Unreadable => inr PermissionError
  | Table df => inl df
  end.

(** [load_lab_data]: only FileNotFoundError is caught, and answered with
    a message and [None]; any other exception goes on to the caller. *)
Definition load_lab_data (w : world)
  : list event * (option dataframe + exn) :=
  match read_csv w with
  | inl df => ([EvPrint (SuccessfullyLoaded FILENAME)], inl (Some df))
  | inr FileNotFoundError =>
      ([EvPrint (ErrorLoadingFile FileNotFoundError)], inl None)
  | inr e => ([], inr e)
  end.

(** The script from top to bottom: the output directory is made first,
    then the table is loaded, and everything else is under
    [if df is not None]. *)
Definition run (w : world) : list event * status :=
  let mk :=
    if output_dir_exists w then []
    else [EvMakedirs OUTPUT_DIR; EvPrint (CreatedDirectory OUTPUT_DIR)] in
  match load_lab_data w with
  | (ev, inr e) => (mk ++ ev, Unhandled e)
  | (ev, inl None) => (mk ++ ev, ExitClean)
  | (ev, inl (Some df)) =>
      match analysis df with
      | Raises e => (mk ++ ev ++ [EvAnalysis df], Unhandled e)
      | NonFinite => (mk ++ ev ++ [EvAnalysis df], LeftFiniteArithmetic)
      | Reported r =>
          (mk ++ ev
             ++ [EvAnalysis df;
                 EvPrint (ResultsText r);
                 EvWriteFile (path_join OUTPUT_DIR TXT_FILE) r;
                 EvPrint (ResultsSavedTo (path_join OUTPUT_DIR TXT_FILE));
                 EvSavefig (path_join OUTPUT_DIR PLOT_FILE);
                 EvPrint (PlotSavedTo (path_join OUTPUT_DIR PLOT_FILE));
                 EvShow],
           ExitClean)
      end
  end.

(** The events that are a computation on the data, and those that write
    a file. *)
Definition is_computation (e : event) : bool :=
  match e with EvAnalysis _ => true | _ => false end.

Definition writes_file (e : event) : bool :=
  match e with EvWriteFile _ _ | EvSavefig _ => true | _ => false end.

End Script.

Arguments EvMakedirs {report} dir.
Arguments EvPrint {report} msg.
Arguments EvAnalysis {report} df.
Arguments EvWriteFile {report} path r.
Arguments EvSavefig {report} path.
Arguments EvShow {report}.
Arguments CreatedDirectory {report} dir.
Arguments SuccessfullyLoaded {report} filename.
Arguments ErrorLoadingFile {report} e.
Arguments is_computation {report} e.
Arguments writes_file {report} e.

(** The run of the heating script. *)
Definition heating_run : world -> list (event Heating.report) * status :=
  run Heating.report "data/v5_heating.csv" "plots"
      "v5_gas_thermometer_heating.pdf" "results_gas_thermometer_heating.txt"
      Heating.analysis.

Definition specific_heat_run
  : world -> list (event SpecificHeat.report) * status :=
  run SpecificHeat.report "data/v5_specific_heat.csv" "plots"
      "v5_specific_heat.pdf" "results_specific_heat.txt"
      SpecificHeat.analysis.

Definition cooling_run : world -> list (event Cooling.report) * status :=
  run Cooling.report "data/v7_cooling.csv" "plots"
      "v7_vapor_pressure_cooling.pdf" "results_vapor_pressure_cooling.txt"
      Cooling.analysis.


(** ** The effective-variance refinement in the words of the specification *)

Module Spec.
Import Array Scipy.

(** The effective sigma of a point: its square is
    [sigma_y^2 + (m0 * sigma_x)^2]. *)
Definition effective_sigma (m0 sigma_y sigma_x : R) : R :=
  sqrt (sigma_y² + (m0 * sigma_x)²).

(** The first pass fits with [sigma_y] alone; each further pass takes the
    slope of the pass before it, recomputes the effective sigma of every
    point and fits again. *)
Fixpoint refined_fit (refits : nat) (x y sigma_x sigma_y : list R)
  : fit_outcome :=
  match refits with
  | O => curve_fit x y sigma_y
  | S k =>
      match refined_fit k x y sigma_x sigma_y with
      | Fit popt _ =>
          curve_fit x y (zipWith (effective_sigma (fst popt)) sigma_y sigma_x)
      | other => other
      end
  end.

End Spec.

(** ** A point with its sigma multiplied by [k] *)

Definition scale_sigma (k : R) (p : R * R * R) : R * R * R :=
  let '(x, y, s) := p in (x, y, k * s).

(** * Properties *)

(** ** Sums over points *)

Lemma sum_over_cons (f : R * R * R -> R) p pts :
  Array.sum_over f (p :: pts) = f p + Array.sum_over f pts.
Proof. reflexivity. Qed.

Section Sums.
Import Array.

Variables f g : R * R * R -> R.

Lemma sum_over_nonneg pts :
  (forall p, In p pts -> 0 <= f p) -> 0 <= sum_over f pts.
Proof.
  induction pts as [|p pts IH]; intros H.
  - unfold sum_over; simpl; lra.
  - rewrite sum_over_cons.
    assert (0 <= f p) by (apply H; left; reflexivity).
    assert (0 <= sum_over f pts) by (apply IH; intros q Hq; apply H; right; exact Hq).
    lra.
Qed.

Lemma sum_over_pos pts p0 :
  (forall p, In p pts -> 0 <= f p) -> In p0 pts -> 0 < f p0 ->
  0 < sum_over f pts.
Proof.
  induction pts as [|p pts IH]; intros H Hin Hpos.
  - destruct Hin.
  - rewrite sum_over_cons.
    assert (Hp : 0 <= f p) by (apply H; left; reflexivity).
    assert (Hs : 0 <= sum_over f pts)
      by (apply sum_over_nonneg; intros q Hq; apply H; right; exact Hq).
    destruct Hin as [-> | Hin].
    + lra.
    + assert (0 < sum_over f pts)
        by (apply IH; auto; intros q Hq; apply H; right; exact Hq).
      lra.
Qed.

Lemma sum_over_ext pts :
  (forall p, In p pts -> f p = g p) -> sum_over f pts = sum_over g pts.
Proof.
  induction pts as [|p pts IH]; intros H.
  - reflexivity.
  - rewrite !sum_over_cons, (H p), IH; auto.
    + intros q Hq; apply H; right; exact Hq.
    + left; reflexivity.
Qed.

Lemma sum_over_scal (k : R) pts :
  sum_over (fun p => k * f p) pts = k * sum_over f pts.
Proof.
  induction pts as [|p pts IH].
  - unfold sum_over; simpl; ring.
  - rewrite !sum_over_cons, IH; ring.
Qed.

End Sums.

(** ** Points made of three arrays *)

Section Points.
Import Array.

Lemma zip3_length a b c :
  length a = length b -> length c = length b ->
  length (zip3 a b c) = length b.
Proof.
  revert b c; induction a as [|x a IH]; intros [|y b] [|s c]; simpl;
    try discriminate; auto.
Qed.

Lemma zip3_In_x a b c x :
  length a = length b -> length c = length b -> In x a ->
  exists y s, In (x, y, s) (zip3 a b c).
Proof.
  revert b c; induction a as [|x0 a IH]; intros [|y b] [|s c]; simpl;
    try discriminate; try tauto.
  intros Hb Hc [-> | Hin].
  - exists y, s; left; reflexivity.
  - destruct (IH b c) as (y' & s' & H'); auto.
    exists y', s'; right; exact H'.
Qed.

Lemma zip3_In a b c x y s :
  In (x, y, s) (zip3 a b c) -> In x a /\ In y b /\ In s c.
Proof.
  revert b c; induction a as [|x0 a IH]; intros [|y0 b] [|s0 c]; simpl;
    try tauto.
  intros [H | H].
  - inversion H; subst; auto.
  - destruct (IH _ _ H) as (? & ? & ?); auto.
Qed.

Lemma zip3_map_sigma (h : R -> R) a b c :
  zip3 a b (map h c) = map (fun p => let '(x, y, s) := p in (x, y, h s)) (zip3 a b c).
Proof.
  revert b c; induction a as [|x a IH]; intros [|y b] [|s c]; simpl; auto.
  rewrite IH; reflexivity.
Qed.

End Points.

(** ** The normal equations *)

Section NormalEquations.
Import Array Scipy.

Ltac sums_nil :=
  unfold normal_rhs, normal_matrix, sum_over; simpl; unfold Rsqr; ring.

(** The weighted residual is the weighted ordinate less the model's share. *)
Lemma weighted_residual_split m b p :
  weighted_residual m b p = y_w p - m * jac_m p - b * jac_b p.
Proof.
  destruct p as [[x y] s]; unfold weighted_residual, linear_model, y_w, jac_m, jac_b.
  unfold Rdiv; ring.
Qed.

(** Residuals against the two columns of the Jacobian. *)
Lemma residual_dot_jac_m pts m b :
  sum_over (fun p => weighted_residual m b p * jac_m p) pts
  = fst (normal_rhs pts) - m * c00 (normal_matrix pts)
    - b * c01 (normal_matrix pts).
Proof.
  induction pts as [|p pts IH].
  - sums_nil.
  - simpl in *. rewrite !sum_over_cons, IH, weighted_residual_split. ring.
Qed.

Lemma residual_dot_jac_b pts m b :
  sum_over (fun p => weighted_residual m b p * jac_b p) pts
  = snd (normal_rhs pts) - m * c10 (normal_matrix pts)
    - b * c11 (normal_matrix pts).
Proof.
  induction pts as [|p pts IH].
  - sums_nil.
  - simpl in *. rewrite !sum_over_cons, IH, weighted_residual_split. ring.
Qed.

Lemma normal_matrix_sym pts :
  c01 (normal_matrix pts) = c10 (normal_matrix pts).
Proof.
  simpl. apply sum_over_ext. intros; ring.
Qed.

(** The quadratic form of [J^T J] is a sum of squares. *)
Lemma normal_quad_form pts dm db :
  sum_over (fun p => (dm * jac_m p + db * jac_b p)²) pts
  = Uncertainties.quad_form (normal_matrix pts) dm db.
Proof.
  unfold Uncertainties.quad_form.
  induction pts as [|p pts IH].
  - sums_nil.
  - simpl in *. rewrite !sum_over_cons, IH. unfold Rsqr. ring.
Qed.

(** The cost at any [(m', b')] against the cost at [(m, b)]. *)
Lemma chi2_shift pts m b m' b' :
  chi2 pts m' b'
  = chi2 pts m b
    - 2 * ((m' - m) * sum_over (fun p => weighted_residual m b p * jac_m p) pts
           + (b' - b) * sum_over (fun p => weighted_residual m b p * jac_b p) pts)
    + sum_over (fun p => ((m' - m) * jac_m p + (b' - b) * jac_b p)²) pts.
Proof.
  unfold chi2.
  induction pts as [|p pts IH].
  - sums_nil.
  - rewrite !sum_over_cons, IH.
    rewrite (weighted_residual_split m' b'), (weighted_residual_split m b).
    unfold Rsqr. ring.
Qed.

(** The solution of the normal equations solves them. *)
Lemma inv2_solves (M : mat2) (v : R * R) :
  det2 M <> 0 ->
  c00 M * fst (mat2_apply (inv2 M) v) + c01 M * snd (mat2_apply (inv2 M) v)
  = fst v
  /\ c10 M * fst (mat2_apply (inv2 M) v) + c11 M * snd (mat2_apply (inv2 M) v)
     = snd v.
Proof.
  intros Hd. destruct M as [a b c d], v as [v1 v2].
  unfold mat2_apply, inv2, det2 in *; simpl in *.
  split; field; exact Hd.
Qed.



(** The determinant as a weighted spread of the abscissas about any
    centre [c]. *)
Lemma det_spread pts c :
  c11 (normal_matrix pts)
  * sum_over (fun p => (jac_m p - c * jac_b p)²) pts
  = det2 (normal_matrix pts)
    + (c01 (normal_matrix pts) - c * c11 (normal_matrix pts))².
Proof.
  assert (E : sum_over (fun p => (jac_m p - c * jac_b p)²) pts
              = c00 (normal_matrix pts) - 2 * c * c01 (normal_matrix pts)
                + c² * c11 (normal_matrix pts)).
  { induction pts as [|p pts IH].
    - sums_nil.
    - simpl in *. rewrite !sum_over_cons, IH. unfold Rsqr. ring. }
  rewrite E. unfold det2. rewrite <- (normal_matrix_sym pts).
  unfold Rsqr. ring.
Qed.

Lemma c11_pos pts :
  pts <> [] -> (forall x y s, In (x, y, s) pts -> s <> 0) ->
  0 < c11 (normal_matrix pts).
Proof.
  intros Hne Hs. destruct pts as [|[[x y] s] pts]; [congruence|].
  simpl. apply sum_over_pos with (p0 := (x, y, s)).
  - intros [[x' y'] s'] _. unfold jac_b. apply Rle_0_sqr.
  - left; reflexivity.
  - unfold jac_b. assert (s <> 0) by (apply (Hs x y s); left; reflexivity).
    assert (H1 : 1 / s <> 0) by (unfold Rdiv; rewrite Rmult_1_l; apply Rinv_neq_0_compat; assumption).
    nra.
Qed.

(** Two points of different abscissa make the normal equations regular. *)
Lemma det_pos pts x1 y1 s1 x2 y2 s2 :
  (forall x y s, In (x, y, s) pts -> s <> 0) ->
  In (x1, y1, s1) pts -> In (x2, y2, s2) pts -> x1 <> x2 ->
  0 < det2 (normal_matrix pts).
Proof.
  intros Hs H1 H2 Hx.
  assert (Hne : pts <> []) by (intros ->; destruct H1).
  pose proof (c11_pos pts Hne Hs) as H11.
  set (c := c01 (normal_matrix pts) / c11 (normal_matrix pts)).
  pose proof (det_spread pts c) as E.
  assert (Ec : c01 (normal_matrix pts) - c * c11 (normal_matrix pts) = 0)
    by (unfold c; field; lra).
  rewrite Ec in E. unfold Rsqr at 2 in E. rewrite Rmult_0_l, Rplus_0_r in E.
  rewrite <- E. apply Rmult_lt_0_compat; [exact H11|].
  assert (Hterm : forall x y s, In (x, y, s) pts -> x <> c ->
                  0 < sum_over (fun p => (jac_m p - c * jac_b p)²) pts).
  { intros x y s Hin Hxc.
    apply sum_over_pos with (p0 := (x, y, s)); auto.
    - intros p _. apply Rle_0_sqr.
    - unfold jac_m, jac_b.
      assert (s <> 0) by (apply (Hs x y s); exact Hin).
      replace (x / s - c * (1 / s)) with ((x - c) / s) by (field; assumption).
      apply Rlt_0_sqr. unfold Rdiv. apply Rmult_integral_contrapositive_currified.
      + lra.
      + apply Rinv_neq_0_compat; assumption. }
  destruct (Req_dec x1 c) as [E1 | N1].
  - apply (Hterm x2 y2 s2 H2). congruence.
  - apply (Hterm x1 y1 s1 H1 N1).
Qed.

(** Points of one abscissa make them singular. *)
Lemma det_zero_same_x pts c :
  (forall x y s, In (x, y, s) pts -> x = c) ->
  det2 (normal_matrix pts) = 0.
Proof.
  intros Hx.
  assert (E : sum_over (fun p => (jac_m p - c * jac_b p)²) pts = 0).
  { rewrite (sum_over_ext _ (fun _ => 0 * 0)).
    - rewrite sum_over_scal; ring.
    - intros [[x y] s] Hin. rewrite (Hx x y s Hin).
      unfold jac_m, jac_b, Rsqr, Rdiv. ring. }
  pose proof (det_spread pts c) as D. rewrite E, Rmult_0_r in D.
  assert (E1 : c01 (normal_matrix pts) = c * c11 (normal_matrix pts)).
  { simpl. rewrite <- sum_over_scal. apply sum_over_ext.
    intros [[x y] s] Hin. rewrite (Hx x y s Hin).
    unfold jac_m, jac_b, Rdiv. ring. }
  rewrite E1 in D. unfold Rsqr in D. lra.
Qed.

End NormalEquations.

(** ** The fit of [curve_fit] *)

Section Fit.
Import Array Scipy.

Lemma two_values_length (l : list R) x1 x2 :
  In x1 l -> In x2 l -> x1 <> x2 -> (2 <= length l)%nat.
Proof.
  destruct l as [|a [|b l]]; simpl; intros H1 H2 Hne; try tauto; try lia.
  destruct H1 as [<-|[]], H2 as [<-|[]]. congruence.
Qed.



(** [curve_fit] on well-shaped data is decided by the determinant. *)
Lemma curve_fit_regular xdata ydata sigma :
  length xdata = length ydata -> length sigma = length ydata ->
  (2 <= length ydata)%nat ->
  det2 (normal_matrix (zip3 xdata ydata sigma)) <> 0 ->
  curve_fit xdata ydata sigma
  = Fit (mat2_apply (inv2 (normal_matrix (zip3 xdata ydata sigma)))
                    (normal_rhs (zip3 xdata ydata sigma)))
        (inv2 (normal_matrix (zip3 xdata ydata sigma))).
Proof.
  intros Hx Hs Hn Hd. unfold curve_fit.
  rewrite Hx, Hs, !Nat.eqb_refl. simpl.
  destruct (Nat.eqb_spec (length ydata) 0); [lia|].
  destruct (Nat.ltb_spec (length ydata) 2); [lia|].
  destruct (Req_EM_T _ 0); [contradiction|reflexivity].
Qed.

Lemma curve_fit_singular xdata ydata sigma :
  length xdata = length ydata -> length sigma = length ydata ->
  (2 <= length ydata)%nat ->
  det2 (normal_matrix (zip3 xdata ydata sigma)) = 0 ->
  curve_fit xdata ydata sigma = FitIndeterminate.
Proof.
  intros Hx Hs Hn Hd. unfold curve_fit.
  rewrite Hx, Hs, !Nat.eqb_refl. simpl.
  destruct (Nat.eqb_spec (length ydata) 0); [lia|].
  destruct (Nat.ltb_spec (length ydata) 2); [lia|].
  destruct (Req_EM_T _ 0); [reflexivity|contradiction].
Qed.

(** A fit that comes back has its parts as the normal equations give
    them. *)
Lemma curve_fit_Fit_inv xdata ydata sigma popt pcov :
  curve_fit xdata ydata sigma = Fit popt pcov ->
  length xdata = length ydata /\ length sigma = length ydata
  /\ (2 <= length ydata)%nat
  /\ det2 (normal_matrix (zip3 xdata ydata sigma)) <> 0
  /\ popt = mat2_apply (inv2 (normal_matrix (zip3 xdata ydata sigma)))
                       (normal_rhs (zip3 xdata ydata sigma))
  /\ pcov = inv2 (normal_matrix (zip3 xdata ydata sigma)).
Proof.
  unfold curve_fit.
  destruct (Nat.eqb_spec (length xdata) (length ydata)) as [Lx|]; simpl;
    [|discriminate].
  destruct (Nat.eqb_spec (length sigma) (length ydata)) as [Ls|]; simpl;
    [|discriminate].
  destruct (Nat.eqb_spec (length ydata) 0) as [|L0]; [discriminate|].
  destruct (Nat.ltb_spec (length ydata) 2) as [|L2]; [discriminate|].
  destruct (Req_EM_T _ 0) as [|Hd]; [discriminate|].
  intros E; inversion E; subst. repeat split; auto.
Qed.

(** Data with positive sigmas and two different abscissas are regular. *)
Lemma distinct_x_regular xdata ydata sigma :
  length xdata = length ydata -> length sigma = length ydata ->
  Forall (fun s => 0 < s) sigma ->
  (exists x1 x2, In x1 xdata /\ In x2 xdata /\ x1 <> x2) ->
  (2 <= length ydata)%nat
  /\ 0 < det2 (normal_matrix (zip3 xdata ydata sigma)).
Proof.
  intros Hx Hs Hpos (x1 & x2 & H1 & H2 & Hne).
  split.
  - rewrite <- Hx. apply (two_values_length xdata x1 x2); assumption.
  - destruct (zip3_In_x xdata ydata sigma x1 Hx Hs H1) as (y1 & s1 & P1).
    destruct (zip3_In_x xdata ydata sigma x2 Hx Hs H2) as (y2 & s2 & P2).
    apply (det_pos _ x1 y1 s1 x2 y2 s2); auto.
    intros x y s Hin. apply zip3_In in Hin. destruct Hin as (_ & _ & Hin).
    rewrite Forall_forall in Hpos. specialize (Hpos s Hin). lra.
Qed.

(** With a regular matrix, the cost has no other minimum than the solution
    of the normal equations. *)
Lemma normal_solution_minimum pts m b :
  0 < det2 (normal_matrix pts) ->
  (m, b) = mat2_apply (inv2 (normal_matrix pts)) (normal_rhs pts) ->
  (forall m' b', chi2 pts m b <= chi2 pts m' b')
  /\ (forall m' b', chi2 pts m' b' = chi2 pts m b -> m' = m /\ b' = b).
Proof.
  intros Hd Hsol.
  assert (Hd' : det2 (normal_matrix pts) <> 0) by lra.
  destruct (inv2_solves (normal_matrix pts) (normal_rhs pts) Hd') as [N1 N2].
  rewrite <- Hsol in N1, N2. cbn [fst snd] in N1, N2.
  assert (Hshift : forall m' b',
             chi2 pts m' b'
             = chi2 pts m b
               + Uncertainties.quad_form (normal_matrix pts) (m' - m) (b' - b)).
  { intros m' b'. rewrite (chi2_shift pts m b m' b').
    rewrite residual_dot_jac_m, residual_dot_jac_b, normal_quad_form.
    rewrite <- N1, <- N2. ring. }
  split.
  - intros m' b'. rewrite (Hshift m' b'), <- normal_quad_form.
    assert (0 <= sum_over (fun p => ((m' - m) * jac_m p + (b' - b) * jac_b p)²) pts)
      by (apply sum_over_nonneg; intros; apply Rle_0_sqr).
    lra.
  - intros m' b' E. rewrite (Hshift m' b') in E.
    assert (Q : Uncertainties.quad_form (normal_matrix pts) (m' - m) (b' - b) = 0) by lra.
    unfold Uncertainties.quad_form in Q.
    pose proof (normal_matrix_sym pts) as Hsym.
    assert (P00 : 0 <= c00 (normal_matrix pts)).
    { simpl. apply sum_over_nonneg. intros p _.
      replace (jac_m p * jac_m p) with ((jac_m p)²) by reflexivity.
      apply Rle_0_sqr. }
    assert (P11 : 0 <= c11 (normal_matrix pts)).
    { simpl. apply sum_over_nonneg. intros p _.
      replace (jac_b p * jac_b p) with ((jac_b p)²) by reflexivity.
      apply Rle_0_sqr. }
    unfold det2 in Hd.
    set (a00 := c00 (normal_matrix pts)) in *.
    set (a01 := c01 (normal_matrix pts)) in *.
    set (a10 := c10 (normal_matrix pts)) in *.
    set (a11 := c11 (normal_matrix pts)) in *.
    clearbody a00 a01 a10 a11. subst a10.
    set (dm := m' - m) in *. set (db := b' - b) in *.
    assert (Hc : a11 * (dm * (a00 * dm + a01 * db) + db * (a01 * dm + a11 * db))
                 = (a11 * db + a01 * dm)² + (a00 * a11 - a01 * a01) * dm²)
      by (unfold Rsqr; ring).
    rewrite Q, Rmult_0_r in Hc.
    assert (H1 : 0 <= (a11 * db + a01 * dm)²) by apply Rle_0_sqr.
    assert (H2 : 0 <= dm²) by apply Rle_0_sqr.
    assert (H3 : 0 <= (a00 * a11 - a01 * a01) * dm²) by (apply Rmult_le_pos; lra).
    assert (Z1 : (a00 * a11 - a01 * a01) * dm² = 0) by lra.
    assert (Z2 : (a11 * db + a01 * dm)² = 0) by lra.
    apply Rmult_integral in Z1. destruct Z1 as [Z1 | Z1]; [lra|].
    apply Rsqr_0_uniq in Z1. apply Rsqr_0_uniq in Z2.
    rewrite Z1, Rmult_0_r, Rplus_0_r in Z2.
    assert (Hpos11 : 0 < a11) by nra.
    apply Rmult_integral in Z2. destruct Z2 as [Z2 | Z2]; [lra|].
    unfold dm, db in *. split; lra.
Qed.

End Fit.

(** ** Weighted least squares with absolute sigmas *)

Section FitCorrectness.
Import Array Scipy.



End FitCorrectness.

(** ** Standard deviations of the two fit parameters *)

Section ParameterSigmas.
Import Uncertainties.

Lemma std_dev_slope popt C v :
  std_dev (Sources C v) (fst (correlated_values popt)) = sqrt (c00 C).
Proof.
  unfold std_dev, variance, quad_form; simpl. f_equal. unfold Rsqr. ring.
Qed.

Lemma std_dev_intercept popt C v :
  std_dev (Sources C v) (snd (correlated_values popt)) = sqrt (c11 C).
Proof.
  unfold std_dev, variance, quad_form; simpl. f_equal. unfold Rsqr. ring.
Qed.

Lemma sqrt_scale k v : 0 <= k -> sqrt (k² * v) = k * sqrt v.
Proof.
  intros Hk. rewrite sqrt_mult_alt by apply Rle_0_sqr.
  rewrite sqrt_Rsqr by exact Hk. reflexivity.
Qed.

End ParameterSigmas.

(** ** Scaling every sigma by one factor *)

Section Scaling.
Import Array Scipy Uncertainties.

Lemma sum_over_map (f : R * R * R -> R) (h : R * R * R -> R * R * R) pts :
  sum_over f (map h pts) = sum_over (fun p => f (h p)) pts.
Proof.
  unfold sum_over. rewrite map_map. reflexivity.
Qed.

Lemma normal_matrix_scaled k pts :
  normal_matrix (map (scale_sigma k) pts)
  = mat2_scale (/ k * / k) (normal_matrix pts).
Proof.
  unfold normal_matrix, mat2_scale; simpl.
  f_equal; rewrite sum_over_map, <- sum_over_scal; apply sum_over_ext;
    intros [[x y] s] _; unfold scale_sigma, jac_m, jac_b, Rdiv;
    rewrite Rinv_mult; ring.
Qed.

Lemma normal_rhs_scaled k pts :
  normal_rhs (map (scale_sigma k) pts)
  = (/ k * / k * fst (normal_rhs pts), / k * / k * snd (normal_rhs pts)).
Proof.
  unfold normal_rhs; simpl.
  f_equal; rewrite sum_over_map, <- sum_over_scal; apply sum_over_ext;
    intros [[x y] s] _; unfold scale_sigma, jac_m, jac_b, y_w, Rdiv;
    rewrite Rinv_mult; ring.
Qed.

Lemma det2_scale c M : det2 (mat2_scale c M) = c * c * det2 M.
Proof. destruct M; unfold det2, mat2_scale; simpl; ring. Qed.

Lemma inv2_scale c M :
  c <> 0 -> det2 M <> 0 -> inv2 (mat2_scale c M) = mat2_scale (/ c) (inv2 M).
Proof.
  intros Hc Hd. destruct M as [a b c' d].
  unfold inv2, mat2_scale, det2 in *; simpl in *.
  assert (Hcd : c * a * (c * d) - c * b * (c * c') <> 0).
  { replace (c * a * (c * d) - c * b * (c * c'))
      with (c * c * (a * d - b * c')) by ring.
    repeat apply Rmult_integral_contrapositive_currified; assumption. }
  f_equal; field; repeat split; assumption.
Qed.

Lemma curve_fit_scaled xdata ydata sigma k popt pcov :
  k <> 0 ->
  curve_fit xdata ydata sigma = Fit popt pcov ->
  curve_fit xdata ydata (map (Rmult k) sigma) = Fit popt (mat2_scale k² pcov).
Proof.
  intros Hk Hfit.
  destruct (curve_fit_Fit_inv _ _ _ _ _ Hfit)
    as (Hx & Hs & Hn & Hd & -> & ->).
  assert (Hz : zip3 xdata ydata (map (Rmult k) sigma)
               = map (scale_sigma k) (zip3 xdata ydata sigma))
    by apply zip3_map_sigma.
  assert (Hik : / k * / k <> 0).
  { apply Rmult_integral_contrapositive_currified;
      apply Rinv_neq_0_compat; exact Hk. }
  rewrite curve_fit_regular.
  - rewrite Hz, normal_matrix_scaled, normal_rhs_scaled.
    rewrite inv2_scale by assumption.
    set (M := inv2 (normal_matrix (zip3 xdata ydata sigma))).
    set (v := normal_rhs (zip3 xdata ydata sigma)).
    assert (Ek : / (/ k * / k) = k²)
      by (unfold Rsqr; field; exact Hk).
    rewrite Ek. clearbody M v. destruct M as [a b c d], v as [v1 v2].
    f_equal.
    unfold mat2_apply, mat2_scale; simpl. unfold Rsqr.
    f_equal; field; exact Hk.
  - exact Hx.
  - rewrite length_map; exact Hs.
  - exact Hn.
  - rewrite Hz, normal_matrix_scaled, det2_scale.
    apply Rmult_integral_contrapositive_currified; [|exact Hd].
    apply Rmult_integral_contrapositive_currified; exact Hik.
Qed.

(** C7.  For arrays of one length with positive sigmas and two different
    x-values, and every positive [k]: the fit with every sigma multiplied by
    [k] returns the same [(m, b)], and the standard deviations of slope and
    intercept (the square roots of the diagonal of the covariance) are each
    multiplied by [k]. *)
Theorem sigma_scale_invariance (xdata ydata sigma : list R) (k : R) :
  length xdata = length ydata -> length sigma = length ydata ->
  Forall (fun s => 0 < s) sigma ->
  (exists x1 x2, In x1 xdata /\ In x2 xdata /\ x1 <> x2) ->
  0 < k ->
  exists popt pcov pcov_k,
    curve_fit xdata ydata sigma = Fit popt pcov
    /\ curve_fit xdata ydata (map (Rmult k) sigma) = Fit popt pcov_k
    /\ std_dev (Sources pcov_k 0) (fst (correlated_values popt))
       = k * std_dev (Sources pcov 0) (fst (correlated_values popt))
    /\ std_dev (Sources pcov_k 0) (snd (correlated_values popt))
       = k * std_dev (Sources pcov 0) (snd (correlated_values popt))
    /\ sqrt (c00 pcov_k) = k * sqrt (c00 pcov)
    /\ sqrt (c11 pcov_k) = k * sqrt (c11 pcov).
Proof.
  intros Hx Hs Hpos Hdist Hk.
  destruct (distinct_x_regular xdata ydata sigma Hx Hs Hpos Hdist) as [Hn Hd].
  assert (Hd' : det2 (normal_matrix (zip3 xdata ydata sigma)) <> 0) by lra.
  pose proof (curve_fit_regular xdata ydata sigma Hx Hs Hn Hd') as Hfit.
  eexists _, _, _. split; [exact Hfit|].
  split; [apply curve_fit_scaled; [lra | exact Hfit]|].
  rewrite !std_dev_slope, !std_dev_intercept.
  assert (E0 : forall M, sqrt (c00 (mat2_scale k² M)) = k * sqrt (c00 M))
    by (intros M; simpl; apply sqrt_scale; lra).
  assert (E1 : forall M, sqrt (c11 (mat2_scale k² M)) = k * sqrt (c11 M))
    by (intros M; simpl; apply sqrt_scale; lra).
  repeat split; auto.
Qed.

Lemma sigma_scale_invariance_witness :
  exists popt pcov pcov_k,
    curve_fit [0; 1; 2] [1; 3; 4] [1; 2; 1] = Fit popt pcov
    /\ curve_fit [0; 1; 2] [1; 3; 4] (map (Rmult 3) [1; 2; 1])
       = Fit popt pcov_k
    /\ std_dev (Sources pcov_k 0) (fst (correlated_values popt))
       = 3 * std_dev (Sources pcov 0) (fst (correlated_values popt))
    /\ std_dev (Sources pcov_k 0) (snd (correlated_values popt))
       = 3 * std_dev (Sources pcov 0) (snd (correlated_values popt))
    /\ sqrt (c00 pcov_k) = 3 * sqrt (c00 pcov)
    /\ sqrt (c11 pcov_k) = 3 * sqrt (c11 pcov).
Proof.
  apply (sigma_scale_invariance [0; 1; 2] [1; 3; 4] [1; 2; 1] 3).
  - reflexivity.
  - reflexivity.
  - repeat constructor; lra.
  - exists 0, 1. simpl. split; [|split]; [auto | auto | lra].
  - lra.
Defined.

End Scaling.

(** ** Propagation through a formula *)

Section Propagation.
Import Uncertainties.




End Propagation.

(** ** The absolute-zero example *)

Section HeatingExample.
Import Array Scipy Uncertainties.

Lemma heating_example_fit :
  Heating.fit [0; 10; 20; 30] [1000; 1040; 1080; 1120]
  = Fit (4, 1000) (Mat2 (1 / 20) (- (3 / 4)) (- (3 / 4)) (35 / 2)).
Proof.
  unfold Heating.fit, Heating.SIGMA_P. simpl repeat.
  set (pts := zip3 [0; 10; 20; 30] [1000; 1040; 1080; 1120] [5; 5; 5; 5]).
  assert (EA : normal_matrix pts = Mat2 56 (12 / 5) (12 / 5) (4 / 25)).
  { unfold normal_matrix, sum_over, jac_m, jac_b; simpl. f_equal; field. }
  assert (Ev : normal_rhs pts = (2624, 848 / 5)).
  { unfold normal_rhs, sum_over, jac_m, jac_b, y_w; simpl. f_equal; field. }
  rewrite curve_fit_regular; try reflexivity; try (simpl; lia).
  - fold pts. rewrite EA, Ev.
    unfold mat2_apply, inv2, det2; simpl. f_equal; f_equal; field.
  - fold pts. rewrite EA. unfold det2; simpl. lra.
Qed.

(** C4.  For [x = [0, 10, 20, 30]], [y = [1000, 1040, 1080, 1120]] and the
    sigma 5 on every point, the fit of the heating script returns [m = 4] and
    [b = 1000], with the sigmas [sqrt(1/20)] and [sqrt(35/2)]; the derived
    quantity [-b/m] has the value [-250] and the sigma [sqrt(7035/32)], a
    positive real number; and this is what the script reports. *)
Theorem heating_example_end_to_end :
  Heating.fit [0; 10; 20; 30] [1000; 1040; 1080; 1120]
  = Fit (4, 1000) (Mat2 (1 / 20) (- (3 / 4)) (- (3 / 4)) (35 / 2))
  /\ propagate (4, 1000) (Mat2 (1 / 20) (- (3 / 4)) (- (3 / 4)) (35 / 2))
               (Div (Neg Intercept) Slope)
     = (-250, sqrt (7035 / 32))
  /\ 0 < sqrt (7035 / 32)
  /\ Heating.analysis [(0, 1000); (10, 1040); (20, 1080); (30, 1120)]
     = Reported
         (Heating.Report (4, sqrt (1 / 20)) (1000, sqrt (35 / 2))
            (-250, sqrt (7035 / 32))
            (Rabs (-250 - Heating.lit_value) / sqrt (7035 / 32))).
Proof.
  assert (ET : variance (Sources (Mat2 (1 / 20) (- (3 / 4)) (- (3 / 4)) (35 / 2)) 0)
                 (Heating.T0_of (UFloat 4 1 0 0) (UFloat 1000 0 1 0))
               = 7035 / 32).
  { unfold variance, quad_form, Heating.T0_of, div, neg; simpl.
    unfold Rsqr. field. }
  split; [exact heating_example_fit|].
  split.
  { unfold propagate; simpl. f_equal.
    - field.
    - unfold std_dev. f_equal. exact ET. }
  split; [apply sqrt_lt_R0; lra|].
  unfold Heating.analysis. simpl map. rewrite heating_example_fit.
  unfold correlated_values. cbn [fst snd nominal].
  match goal with
  | |- context [if ?c then _ else _] => destruct c as [E | _]; [lra|]
  end.
  f_equal.
  assert (EN : nominal (Heating.T0_of (UFloat 4 1 0 0) (UFloat 1000 0 1 0)) = -250)
    by (simpl; field).
  unfold shown. rewrite EN. unfold std_dev at 3 4. rewrite ET.
  f_equal; f_equal.
  - exact (std_dev_slope (4, 1000) _ _).
  - exact (std_dev_intercept (4, 1000) _ _).
Qed.

End HeatingExample.

(** ** Data with a single abscissa *)

Section Degenerate.
Import Array Scipy.

Lemma same_x_det_zero xdata ydata sigma c :
  (forall x, In x xdata -> x = c) ->
  det2 (normal_matrix (zip3 xdata ydata sigma)) = 0.
Proof.
  intros Hc. apply (det_zero_same_x _ c).
  intros x y s Hin. apply zip3_In in Hin. apply Hc. tauto.
Qed.




End Degenerate.

(** ** Degrees of freedom from the adiabatic exponent *)

Section DegreesOfFreedom.
Import Array Scipy Uncertainties.

(** An uncertain number whose derivatives are those of another, each
    multiplied by [c], has [|c|] times its standard deviation. *)
Lemma std_dev_chain src (u v : ufloat) (c : R) :
  d_slope u = c * d_slope v ->
  d_intercept u = c * d_intercept v ->
  d_volume u = c * d_volume v ->
  std_dev src u = Rabs c * std_dev src v.
Proof.
  intros Es Ei Ev. unfold std_dev.
  assert (E : variance src u = c² * variance src v).
  { unfold variance, quad_form. rewrite Es, Ei, Ev. unfold Rsqr. ring. }
  rewrite E, sqrt_mult_alt by apply Rle_0_sqr.
  rewrite sqrt_Rsqr_abs. reflexivity.
Qed.

Lemma f_of_chain (kappa : ufloat) :
  nominal kappa - 1 <> 0 ->
  let c := - 2 / (nominal kappa - 1)² in
  nominal (SpecificHeat.f_of kappa) = 2 / (nominal kappa - 1)
  /\ d_slope (SpecificHeat.f_of kappa) = c * d_slope kappa
  /\ d_intercept (SpecificHeat.f_of kappa) = c * d_intercept kappa
  /\ d_volume (SpecificHeat.f_of kappa) = c * d_volume kappa.
Proof.
  intros Hk. unfold SpecificHeat.f_of, div, sub, const; simpl.
  unfold Rsqr. repeat split; field; exact Hk.
Qed.

(** The derivative of [f = 2 / (kappa - 1)] in [kappa]. *)
Lemma f_derivative (k : R) :
  k - 1 <> 0 ->
  derivable_pt_lim (fun t => 2 / (t - 1)) k (- 2 / (k - 1)²).
Proof.
  intros Hk.
  replace (- 2 / (k - 1)²) with ((0 * (k - 1) - (1 - 0) * 2) / (k - 1)²)
    by (unfold Rsqr; field; exact Hk).
  apply (derivable_pt_lim_div (fun _ => 2) (fun t => t - 1)).
  - apply derivable_pt_lim_const.
  - apply (derivable_pt_lim_minus (fun t => t) (fun _ => 1)).
    + apply derivable_pt_lim_id.
    + apply derivable_pt_lim_const.
  - exact Hk.
Qed.

(** C8.  Whenever the specific-heat script reports, the value it reports
    for [f] is [2 / (kappa - 1)] at the reported value of [kappa], and the
    sigma it reports for [f], which the uncertain arithmetic derives from the
    covariance of [(m, b)] and the sigma of [VOLUME], is [|df/dkappa|] times
    the reported sigma of [kappa]: it is a function of the value and the
    sigma of [kappa] alone. *)
Theorem f_sigma_from_kappa_alone (df : dataframe) (r : SpecificHeat.report) :
  SpecificHeat.analysis df = Reported r ->
  let kappa_n := fst (SpecificHeat.kappa r) in
  let kappa_s := snd (SpecificHeat.kappa r) in
  derivable_pt_lim (fun t => 2 / (t - 1)) kappa_n (- 2 / (kappa_n - 1)²)
  /\ fst (SpecificHeat.f_measured r) = 2 / (kappa_n - 1)
  /\ snd (SpecificHeat.f_measured r)
     = Rabs (- 2 / (kappa_n - 1)²) * kappa_s.
Proof.
  unfold SpecificHeat.analysis.
  destruct (SpecificHeat.fit (map fst df) (map snd df)) as [popt pcov| |e];
    try discriminate.
  unfold correlated_values. cbn [fst snd].
  match goal with
  | |- context [if ?c then _ else _] => destruct c as [|Hk]; [discriminate|]
  end.
  intros H. inversion H; subst; clear H. cbn [SpecificHeat.kappa SpecificHeat.f_measured shown fst snd].
  destruct (f_of_chain _ Hk) as (En & Es & Ei & Ev).
  split; [apply f_derivative; exact Hk|].
  split; [exact En|].
  apply std_dev_chain; assumption.
Qed.

Lemma specific_heat_example_fit :
  exists pcov, SpecificHeat.fit [0; 100] [0; 1] = Fit (981 / 10, 0) pcov.
Proof.
  unfold SpecificHeat.fit, SpecificHeat.sigma_p, SpecificHeat.Delta_Q,
    SpecificHeat.Delta_p. simpl map. simpl repeat.
  eexists. rewrite curve_fit_regular; try reflexivity; try (simpl; lia).
  - f_equal.
    unfold normal_matrix, normal_rhs, mat2_apply, inv2, det2, sum_over,
      jac_m, jac_b, y_w; simpl.
    unfold SpecificHeat.C, SpecificHeat.RHO_WATER, SpecificHeat.G,
      SpecificHeat.SIGMA_H.
    f_equal; field.
  - match goal with
    | |- det2 (normal_matrix (zip3 ?x ?y ?s)) <> 0 =>
        destruct (distinct_x_regular x y s) as [_ Hd]
    end; try reflexivity.
    + unfold SpecificHeat.RHO_WATER, SpecificHeat.G, SpecificHeat.SIGMA_H.
      repeat constructor; lra.
    + eexists _, _. simpl.
      split; [left; reflexivity|]. split; [right; left; reflexivity|].
      unfold SpecificHeat.C. lra.
    + lra.
Qed.

Lemma f_sigma_from_kappa_alone_witness :
  exists r,
    SpecificHeat.analysis [(0, 0); (100, 1)] = Reported r
    /\ derivable_pt_lim (fun t => 2 / (t - 1)) (fst (SpecificHeat.kappa r))
         (- 2 / (fst (SpecificHeat.kappa r) - 1)²)
    /\ fst (SpecificHeat.f_measured r) = 2 / (fst (SpecificHeat.kappa r) - 1)
    /\ snd (SpecificHeat.f_measured r)
       = Rabs (- 2 / (fst (SpecificHeat.kappa r) - 1)²)
         * snd (SpecificHeat.kappa r).
Proof.
  assert (E : exists r, SpecificHeat.analysis [(0, 0); (100, 1)] = Reported r).
  { unfold SpecificHeat.analysis. simpl map.
    destruct specific_heat_example_fit as [pcov ->].
    unfold correlated_values. cbn [fst snd].
    match goal with
    | |- context [if ?c then _ else _] => destruct c as [Hk|]; [|eexists; reflexivity]
    end.
    exfalso. simpl in Hk. unfold SpecificHeat.VOLUME_VAL in Hk. lra. }
  destruct E as [r E]. exists r. split; [exact E|].
  exact (f_sigma_from_kappa_alone [(0, 0); (100, 1)] r E).
Defined.

End DegreesOfFreedom.

(** ** The two passes of the cooling script *)

Section TwoPasses.
Import Array Scipy Uncertainties.

Lemma zipWith_length f a b :
  length (zipWith f a b) = Nat.min (length a) (length b).
Proof.
  revert b; induction a as [|x a IH]; intros [|y b]; simpl; auto.
Qed.

Lemma zipWith_nth f a b i :
  (i < length a)%nat -> (i < length b)%nat ->
  nth i (zipWith f a b) 0 = f (nth i a 0) (nth i b 0).
Proof.
  revert b i; induction a as [|x a IH]; intros [|y b] [|i]; simpl;
    try lia; auto.
  intros Ha Hb. apply IH; lia.
Qed.

Lemma sigma_eff_spec m0 sy sx :
  Cooling.sigma_eff m0 sy sx = zipWith (Spec.effective_sigma m0) sy sx.
Proof.
  unfold Cooling.sigma_eff, Spec.effective_sigma.
  revert sx; induction sy as [|a sy IH]; intros [|c sx]; simpl; auto.
  rewrite IH. f_equal. f_equal. unfold Rsqr. ring.
Qed.

(** The two calls of the script are the first pass and one refit. *)
Lemma cooling_fit_one_refit (x y x_err y_err : list R) :
  Cooling.fit x y x_err y_err = Spec.refined_fit 1 x y x_err y_err.
Proof.
  unfold Cooling.fit, Spec.refined_fit.
  destruct (curve_fit x y y_err) as [popt0 pcov0| |e]; auto.
  rewrite sigma_eff_spec. reflexivity.
Qed.

(** *** A third pass would move the slope *)

Lemma third_pass_first :
  curve_fit [0; 1; 2] [0; 0; 3] [1; 1; 1]
  = Fit (3 / 2, - (1 / 2)) (Mat2 (1 / 2) (- (1 / 2)) (- (1 / 2)) (5 / 6)).
Proof.
  rewrite curve_fit_regular; try reflexivity; try (simpl; lia).
  - unfold normal_matrix, normal_rhs, mat2_apply, inv2, det2, sum_over,
      jac_m, jac_b, y_w; simpl. f_equal; f_equal; field.
  - unfold normal_matrix, det2, sum_over, jac_m, jac_b; simpl. lra.
Qed.

Lemma third_pass_sigma_2 :
  Cooling.sigma_eff (3 / 2) [1; 1; 1] [0; 0; 8 / 9] = [1; 1; 5 / 3].
Proof.
  unfold Cooling.sigma_eff; cbn [zipWith].
  replace (1 ^ 2 + (3 / 2 * 0) ^ 2) with 1 by field.
  replace (1 ^ 2 + (3 / 2 * (8 / 9)) ^ 2) with (5 / 3 * (5 / 3)) by field.
  rewrite sqrt_1, sqrt_square by lra. reflexivity.
Qed.

Lemma third_pass_second :
  curve_fit [0; 1; 2] [0; 0; 3] [1; 1; 5 / 3]
  = Fit (81 / 70, - (27 / 70))
        (Mat2 (59 / 70) (- (43 / 70)) (- (43 / 70)) (61 / 70)).
Proof.
  rewrite curve_fit_regular; try reflexivity; try (simpl; lia).
  - unfold normal_matrix, normal_rhs, mat2_apply, inv2, det2, sum_over,
      jac_m, jac_b, y_w; simpl. f_equal; f_equal; field.
  - unfold normal_matrix, det2, sum_over, jac_m, jac_b; simpl. lra.
Qed.

(** On these data the second pass gives the slope [81/70], and one more
    refit would give [3675/2882]. *)
Lemma third_pass_moves_slope :
  exists c2 C2 c3 C3,
    Cooling.fit [0; 1; 2] [0; 0; 3] [0; 0; 8 / 9] [1; 1; 1]
    = Fit (81 / 70, c2) C2
    /\ Spec.refined_fit 2 [0; 1; 2] [0; 0; 3] [0; 0; 8 / 9] [1; 1; 1]
       = Fit (3675 / 2882, c3) C3
    /\ 81 / 70 <> 3675 / 2882.
Proof.
  assert (E2 : Cooling.fit [0; 1; 2] [0; 0; 3] [0; 0; 8 / 9] [1; 1; 1]
               = Fit (81 / 70, - (27 / 70))
                     (Mat2 (59 / 70) (- (43 / 70)) (- (43 / 70)) (61 / 70))).
  { unfold Cooling.fit. rewrite third_pass_first. cbn [fst].
    rewrite third_pass_sigma_2. exact third_pass_second. }
  set (s3 := sqrt (1 ^ 2 + (81 / 70 * (8 / 9)) ^ 2)).
  assert (Hs3 : s3 * s3 = 2521 / 1225).
  { unfold s3. rewrite sqrt_sqrt by lra. field. }
  assert (Hp3 : 0 < s3) by (unfold s3; apply sqrt_lt_R0; lra).
  assert (W : / s3 * / s3 = 1225 / 2521).
  { rewrite <- Rinv_mult, Hs3. field. }
  assert (E3 : zipWith (Spec.effective_sigma (81 / 70)) [1; 1; 1] [0; 0; 8 / 9]
               = [1; 1; s3]).
  { rewrite <- sigma_eff_spec. unfold Cooling.sigma_eff; cbn [zipWith].
    replace (1 ^ 2 + (81 / 70 * 0) ^ 2) with 1 by field.
    rewrite sqrt_1. reflexivity. }
  set (pts := zip3 [0; 1; 2] [0; 0; 3] [1; 1; s3]).
  assert (EA : normal_matrix pts
               = Mat2 (7421 / 2521) (4971 / 2521) (4971 / 2521) (6267 / 2521)).
  { unfold normal_matrix, sum_over, jac_m, jac_b, pts; simpl.
    unfold Rdiv. f_equal; lra. }
  assert (Ev : normal_rhs pts = (7350 / 2521, 3675 / 2521)).
  { unfold normal_rhs, sum_over, jac_m, jac_b, y_w, pts; simpl.
    unfold Rdiv. f_equal; lra. }
  eexists _, _, _, _. split; [exact E2|]. split; [|lra].
  change (Spec.refined_fit 2 [0; 1; 2] [0; 0; 3] [0; 0; 8 / 9] [1; 1; 1])
    with (match Spec.refined_fit 1 [0; 1; 2] [0; 0; 3] [0; 0; 8 / 9] [1; 1; 1] with
          | Fit popt _ =>
              curve_fit [0; 1; 2] [0; 0; 3]
                (zipWith (Spec.effective_sigma (fst popt)) [1; 1; 1] [0; 0; 8 / 9])
          | other => other
          end).
  rewrite <- cooling_fit_one_refit.
  rewrite E2. cbn [fst]. rewrite E3.
  rewrite curve_fit_regular; try reflexivity; try (simpl; lia).
  - fold pts. rewrite EA, Ev.
    unfold mat2_apply, inv2, det2; simpl. f_equal. f_equal. field.
  - fold pts. rewrite EA. unfold det2; simpl. lra.
Qed.

(** C3.  The fit of the cooling script is the refinement of the
    specification with exactly one refit after the first pass: the first
    pass fits with [y_err] alone and gives the slope [m0]; the second fits
    once more, with the sigma of every point [i] the non-negative number
    whose square is [y_err_i^2 + (m0 * x_err_i)^2]; the slope and intercept
    the script reports, with their sigmas, are those of the second pass; and
    the second pass is not a fixed point of the refinement: there are data
    on which one more refit gives another slope. *)
Theorem cooling_fit_two_passes (x y x_err y_err : list R) :
  Cooling.fit x y x_err y_err = Spec.refined_fit 1 x y x_err y_err
  /\ (forall popt pcov,
        Cooling.fit x y x_err y_err = Fit popt pcov ->
        exists popt0 pcov0 sigma,
          curve_fit x y y_err = Fit popt0 pcov0
          /\ sigma = Cooling.sigma_eff (fst popt0) y_err x_err
          /\ curve_fit x y sigma = Fit popt pcov
          /\ forall i, (i < length y_err)%nat -> (i < length x_err)%nat ->
               0 <= nth i sigma 0
               /\ (nth i sigma 0)²
                  = (nth i y_err 0)² + (fst popt0 * nth i x_err 0)²)
  /\ (forall df r,
        Cooling.analysis df = Reported r ->
        exists popt pcov,
          Cooling.fit (Cooling.x_val (map snd df)) (Cooling.y_val (map fst df))
                      (Cooling.x_err (map snd df)) (Cooling.y_err (map fst df))
          = Fit popt pcov
          /\ Cooling.slope r = (fst popt, sqrt (c00 pcov))
          /\ Cooling.intercept r = (snd popt, sqrt (c11 pcov)))
  /\ (exists c2 C2 c3 C3,
        Cooling.fit [0; 1; 2] [0; 0; 3] [0; 0; 8 / 9] [1; 1; 1]
        = Fit (81 / 70, c2) C2
        /\ Spec.refined_fit 2 [0; 1; 2] [0; 0; 3] [0; 0; 8 / 9] [1; 1; 1]
           = Fit (3675 / 2882, c3) C3
        /\ 81 / 70 <> 3675 / 2882).
Proof.
  split; [|split; [|split]]; [| | |exact third_pass_moves_slope].
  - apply cooling_fit_one_refit.
  - intros popt pcov. unfold Cooling.fit.
    destruct (curve_fit x y y_err) as [popt0 pcov0| |e] eqn:E1;
      try discriminate.
    intros E2. exists popt0, pcov0, (Cooling.sigma_eff (fst popt0) y_err x_err).
    repeat split; auto.
    + unfold Cooling.sigma_eff. rewrite zipWith_nth by assumption.
      apply sqrt_pos.
    + unfold Cooling.sigma_eff. rewrite zipWith_nth by assumption.
      rewrite Rsqr_sqrt.
      * unfold Rsqr. ring.
      * assert (0 <= nth i y_err 0 ^ 2) by (apply pow2_ge_0).
        assert (0 <= (fst popt0 * nth i x_err 0) ^ 2) by (apply pow2_ge_0).
        lra.
  - intros df r. unfold Cooling.analysis.
    destruct (negb (forallb Cooling.finite_row df)); [discriminate|].
    destruct (Cooling.fit _ _ _ _) as [popt pcov| |e]; try discriminate.
    intros H. inversion H; subst; clear H.
    exists popt, pcov. split; [reflexivity|].
    cbn [Cooling.slope Cooling.intercept]. unfold shown.
    pose proof (std_dev_slope popt pcov 0) as Es.
    pose proof (std_dev_intercept popt pcov 0) as Ei.
    destruct popt as [m c]. cbn [correlated_values fst snd] in *.
    unfold correlated_values in *. cbn [fst snd nominal] in *.
    rewrite Es, Ei. split; reflexivity.
Qed.

(** C9.  In the second pass, the sigma of every point is at least the
    absolute value of its [y_err], whatever the first slope and the [x_err]
    are; so the weight [1 / sigma^2] of a point in the second pass is at most
    its weight in the first. *)
Theorem sigma_eff_at_least_y_err (m_init : R) (y_err x_err : list R) (i : nat) :
  (i < length y_err)%nat -> (i < length x_err)%nat ->
  Rabs (nth i y_err 0) <= nth i (Cooling.sigma_eff m_init y_err x_err) 0
  /\ (nth i y_err 0 <> 0 ->
      / (nth i (Cooling.sigma_eff m_init y_err x_err) 0)²
      <= / (nth i y_err 0)²).
Proof.
  intros Hy Hx. unfold Cooling.sigma_eff. rewrite zipWith_nth by assumption.
  set (ye := nth i y_err 0). set (xe := nth i x_err 0).
  assert (H2 : 0 <= (m_init * xe) ^ 2) by apply pow2_ge_0.
  assert (Hy2 : ye ^ 2 = ye²) by (unfold Rsqr; ring).
  assert (Hle : Rabs ye <= sqrt (ye ^ 2 + (m_init * xe) ^ 2)).
  { rewrite <- (sqrt_Rsqr_abs ye). apply sqrt_le_1_alt. lra. }
  split; [exact Hle|].
  intros Hnz.
  assert (Hpos : 0 < ye²) by (apply Rlt_0_sqr; exact Hnz).
  apply Rinv_le_contravar; [exact Hpos|].
  rewrite Rsqr_sqrt by lra. lra.
Qed.

Lemma sigma_eff_at_least_y_err_witness :
  Rabs (nth 1 [3; 4] 0) <= nth 1 (Cooling.sigma_eff 2 [3; 4] [1; 3 / 2]) 0
  /\ (nth 1 [3; 4] 0 <> 0 ->
      / (nth 1 (Cooling.sigma_eff 2 [3; 4] [1; 3 / 2]) 0)²
      <= / (nth 1 [3; 4] 0)²).
Proof.
  apply (sigma_eff_at_least_y_err 2 [3; 4] [1; 3 / 2] 1); simpl; lia.
Defined.

(** C10.  With no pressure equal to zero, [y_err] is [0.01] at every point,
    so the first pass is a fit with the one sigma [0.01] whatever the
    pressures are; and a table with a pressure that is not positive, which
    has no logarithm, is refused with ValueError. *)
Theorem cooling_first_pass_uniform (df : dataframe) :
  Forall (fun row => fst row <> 0) df ->
  Cooling.y_err (map fst df) = repeat (1 / 100) (length df)
  /\ (forall x y,
        curve_fit x y (Cooling.y_err (map fst df))
        = curve_fit x y (repeat (1 / 100) (length df)))
  /\ ((exists row, In row df /\ fst row <= 0) ->
      Cooling.analysis df = Raises ValueError).
Proof.
  intros Hnz.
  assert (E : Cooling.y_err (map fst df) = repeat (1 / 100) (length df)).
  { unfold Cooling.y_err, Cooling.sigma_p.
    induction df as [|[p r] df IH]; simpl; auto.
    inversion Hnz; subst. simpl in *. rewrite IH by assumption.
    f_equal. field. assumption. }
  split; [exact E|]. split.
  - intros x y. rewrite E. reflexivity.
  - intros (row & Hin & Hle). unfold Cooling.analysis.
    assert (F : forallb Cooling.finite_row df = false).
    { clear - Hin Hle. induction df as [|row' df IH]; [destruct Hin|].
      simpl. destruct Hin as [-> | Hin].
      - destruct row as [p r]. simpl in *.
        destruct (Rlt_dec 0 p); [lra|]. reflexivity.
      - rewrite (IH Hin). apply andb_false_r. }
    rewrite F. reflexivity.
Qed.

Lemma cooling_first_pass_uniform_witness :
  Cooling.y_err (map fst [(2, 1100); (3, 1200)])
  = repeat (1 / 100) (length [(2, 1100); (3, 1200)])
  /\ (forall x y,
        curve_fit x y (Cooling.y_err (map fst [(2, 1100); (3, 1200)]))
        = curve_fit x y (repeat (1 / 100) (length [(2, 1100); (3, 1200)])))
  /\ ((exists row, In row [(2, 1100); (3, 1200)] /\ fst row <= 0) ->
      Cooling.analysis [(2, 1100); (3, 1200)] = Raises ValueError).
Proof.
  apply (cooling_first_pass_uniform [(2, 1100); (3, 1200)]).
  repeat constructor; simpl; lra.
Defined.

End TwoPasses.

(** ** A run without its input file *)

Section MissingInput.

Variable report : Type.
Variables FILENAME OUTPUT_DIR PLOT_FILE TXT_FILE : string.
Variable analysis : dataframe -> outcome report.

Lemma run_absent (w : world) :
  input w = Absent ->
  run report FILENAME OUTPUT_DIR PLOT_FILE TXT_FILE analysis w
  = ((if output_dir_exists w then []
      else [EvMakedirs OUTPUT_DIR; EvPrint (CreatedDirectory OUTPUT_DIR)])
       ++ [EvPrint (ErrorLoadingFile FileNotFoundError)],
     ExitClean).
Proof.
  intros Hin. unfold run, load_lab_data, read_csv.
  rewrite Hin. reflexivity.
Qed.


End MissingInput.

(** C6, as the scripts have it.  For every script and every run whose input
    file does not exist: the failure is printed as an error in loading the
    file, after the output directory has been made if it was not there; the
    run ends there, cleanly, without any computation on data and without
    writing a report or a plot. *)
Theorem missing_input_aborts_cleanly
  (report : Type) (FILENAME OUTPUT_DIR PLOT_FILE TXT_FILE : string)
  (analysis : dataframe -> outcome report) (w : world) :
  input w = Absent ->
  let '(events, exit) :=
    run report FILENAME OUTPUT_DIR PLOT_FILE TXT_FILE analysis w in
  exit = ExitClean
  /\ In (EvPrint (ErrorLoadingFile FileNotFoundError)) events
  /\ existsb is_computation events = false
  /\ existsb writes_file events = false
  /\ events
     = (if output_dir_exists w then []
        else [EvMakedirs OUTPUT_DIR; EvPrint (CreatedDirectory OUTPUT_DIR)])
         ++ [EvPrint (ErrorLoadingFile FileNotFoundError)].
Proof.
  intros Hin.
  rewrite (run_absent report FILENAME OUTPUT_DIR PLOT_FILE TXT_FILE analysis w Hin).
  destruct (output_dir_exists w); simpl; repeat split; auto.
Qed.

Lemma missing_input_aborts_cleanly_witness :
  let '(events, exit) := heating_run (World false Absent) in
  exit = ExitClean
  /\ In (EvPrint (ErrorLoadingFile FileNotFoundError)) events
  /\ existsb is_computation events = false
  /\ existsb writes_file events = false
  /\ events
     = (if output_dir_exists (World false Absent) then []
        else [EvMakedirs "plots"; EvPrint (CreatedDirectory "plots")])
         ++ [EvPrint (ErrorLoadingFile FileNotFoundError)].
Proof.
  apply (missing_input_aborts_cleanly Heating.report "data/v5_heating.csv"
           "plots" "v5_gas_thermometer_heating.pdf"
           "results_gas_thermometer_heating.txt" Heating.analysis
           (World false Absent)).
  reflexivity.
Defined.

(** An input file that is there and may not be read: the PermissionError of
    [read_csv] is not caught, and leaves each of the three scripts. *)
Lemma unreadable_input_unhandled :
  heating_run (World true Unreadable) = ([], Unhandled PermissionError)
  /\ specific_heat_run (World true Unreadable)
     = ([], Unhandled PermissionError)
  /\ cooling_run (World true Unreadable) = ([], Unhandled PermissionError)
  /\ snd (heating_run (World true Unreadable)) <> ExitClean.
Proof.
  repeat split. discriminate.
Qed.

(** ** The covariance of a fit, and fits that have none *)

Section FitInvariants.
Import Array Scipy Uncertainties.

Lemma positive_sigma_points xdata ydata sigma :
  Forall (fun s => 0 < s) sigma ->
  forall x y s, In (x, y, s) (zip3 xdata ydata sigma) -> s <> 0.
Proof.
  intros Hpos x y s Hin. apply zip3_In in Hin. destruct Hin as (_ & _ & Hin).
  rewrite Forall_forall in Hpos. specialize (Hpos s Hin). lra.
Qed.

(** The determinant of [J^T J] is never negative. *)
Lemma det_nonneg pts :
  pts <> [] -> (forall x y s, In (x, y, s) pts -> s <> 0) ->
  0 <= det2 (normal_matrix pts).
Proof.
  intros Hne Hs.
  pose proof (c11_pos pts Hne Hs) as H11.
  pose proof (det_spread pts (c01 (normal_matrix pts) / c11 (normal_matrix pts)))
    as E.
  replace (c01 (normal_matrix pts)
           - c01 (normal_matrix pts) / c11 (normal_matrix pts)
             * c11 (normal_matrix pts)) with 0 in E by (field; lra).
  unfold Rsqr at 2 in E. rewrite Rmult_0_l, Rplus_0_r in E.
  rewrite <- E. apply Rmult_le_pos; [lra|].
  apply sum_over_nonneg. intros; apply Rle_0_sqr.
Qed.


Lemma all_equal_or_not (l : list R) (c : R) :
  (forall x, In x l -> x = c) \/ (exists x, In x l /\ x <> c).
Proof.
  induction l as [|a l IH].
  - left. intros x [].
  - destruct (Req_dec a c) as [-> | Hne].
    + destruct IH as [Hall | (x & Hin & Hx)].
      * left. intros x [<- | Hin]; auto.
      * right. exists x. split; [right; exact Hin | exact Hx].
    + right. exists a. split; [left; reflexivity | exact Hne].
Qed.

Lemma curve_fit_Indeterminate_inv xdata ydata sigma :
  curve_fit xdata ydata sigma = FitIndeterminate ->
  length xdata = length ydata /\ length sigma = length ydata
  /\ (2 <= length ydata)%nat
  /\ det2 (normal_matrix (zip3 xdata ydata sigma)) = 0.
Proof.
  unfold curve_fit.
  destruct (Nat.eqb_spec (length xdata) (length ydata)) as [Lx|]; simpl;
    [|discriminate].
  destruct (Nat.eqb_spec (length sigma) (length ydata)) as [Ls|]; simpl;
    [|discriminate].
  destruct (Nat.eqb_spec (length ydata) 0) as [|L0]; [discriminate|].
  destruct (Nat.ltb_spec (length ydata) 2) as [|L2]; [discriminate|].
  destruct (Req_EM_T _ 0) as [Hd|]; [|discriminate].
  intros _. repeat split; auto.
Qed.

(** A fit without a covariance has none with other positive sigmas
    either: after an indeterminate first pass, the second pass of the
    cooling script is indeterminate whatever slope it is given. *)
Lemma indeterminate_for_all_sigmas xdata ydata sigma sigma' :
  Forall (fun s => 0 < s) sigma ->
  length sigma' = length ydata ->
  curve_fit xdata ydata sigma = FitIndeterminate ->
  curve_fit xdata ydata sigma' = FitIndeterminate.
Proof.
  intros Hpos Hs' Hfit.
  destruct (curve_fit_Indeterminate_inv _ _ _ Hfit) as (Hx & Hs & Hn & Hd).
  apply curve_fit_singular; auto.
  destruct xdata as [|x0 xdata]; [simpl in Hx; lia|].
  destruct (all_equal_or_not (x0 :: xdata) x0) as [Hall | (x & Hin & Hne)].
  - apply (same_x_det_zero _ _ _ x0 Hall).
  - exfalso.
    destruct (distinct_x_regular (x0 :: xdata) ydata sigma Hx Hs Hpos)
      as [_ Hp].
    + exists x0, x. repeat split; auto. left; reflexivity.
    + lra.
Qed.

End FitInvariants.

(** * Further properties of the scripts *)

(** ** The covariance is positive definite; data on a line are recovered *)

Section ExactData.
Import Array Scipy Uncertainties.

(** The quadratic form of a regular [J^T J] vanishes at the origin only. *)
Lemma normal_quad_form_pos pts u v :
  0 < det2 (normal_matrix pts) -> u <> 0 \/ v <> 0 ->
  0 < quad_form (normal_matrix pts) u v.
Proof.
  intros Hd Hnz.
  pose proof (normal_matrix_sym pts) as Hsym.
  assert (Hq : 0 <= quad_form (normal_matrix pts) u v).
  { rewrite <- normal_quad_form. apply sum_over_nonneg.
    intros; apply Rle_0_sqr. }
  assert (P00 : 0 <= c00 (normal_matrix pts)).
  { simpl. apply sum_over_nonneg. intros p _.
    replace (jac_m p * jac_m p) with ((jac_m p)²) by reflexivity.
    apply Rle_0_sqr. }
  assert (P11 : 0 <= c11 (normal_matrix pts)).
  { simpl. apply sum_over_nonneg. intros p _.
    replace (jac_b p * jac_b p) with ((jac_b p)²) by reflexivity.
    apply Rle_0_sqr. }
  unfold quad_form, det2 in *.
  set (a00 := c00 (normal_matrix pts)) in *.
  set (a01 := c01 (normal_matrix pts)) in *.
  set (a10 := c10 (normal_matrix pts)) in *.
  set (a11 := c11 (normal_matrix pts)) in *.
  clearbody a00 a01 a10 a11. subst a10.
  assert (H11 : 0 < a11) by nra.
  assert (H00 : 0 < a00) by nra.
  destruct Hq as [Hq | Hq]; [exact Hq | exfalso].
  assert (Hc : a11 * (u * (a00 * u + a01 * v) + v * (a01 * u + a11 * v))
               = (a11 * v + a01 * u)² + (a00 * a11 - a01 * a01) * u²)
    by (unfold Rsqr; ring).
  rewrite <- Hq, Rmult_0_r in Hc.
  assert (H1 : 0 <= (a11 * v + a01 * u)²) by apply Rle_0_sqr.
  assert (H2 : 0 <= u²) by apply Rle_0_sqr.
  assert (H3 : 0 <= (a00 * a11 - a01 * a01) * u²) by (apply Rmult_le_pos; lra).
  assert (Z1 : (a00 * a11 - a01 * a01) * u² = 0) by lra.
  assert (Z2 : (a11 * v + a01 * u)² = 0) by lra.
  apply Rmult_integral in Z1. destruct Z1 as [Z1 | Z1]; [lra|].
  apply Rsqr_0_uniq in Z1. apply Rsqr_0_uniq in Z2.
  rewrite Z1, Rmult_0_r, Rplus_0_r in Z2.
  apply Rmult_integral in Z2. destruct Z2 as [Z2 | Z2]; [lra|].
  destruct Hnz; contradiction.
Qed.

Lemma fit_regular_det xdata ydata sigma popt pcov :
  Forall (fun s => 0 < s) sigma ->
  curve_fit xdata ydata sigma = Fit popt pcov ->
  0 < det2 (normal_matrix (zip3 xdata ydata sigma)).
Proof.
  intros Hpos Hfit.
  destruct (curve_fit_Fit_inv _ _ _ _ _ Hfit) as (Hx & Hs & Hn & Hd & _ & _).
  assert (Hne : zip3 xdata ydata sigma <> []).
  { intros E. pose proof (zip3_length xdata ydata sigma Hx Hs) as L.
    rewrite E in L. simpl in L. lia. }
  pose proof (det_nonneg _ Hne (positive_sigma_points _ _ _ Hpos)). lra.
Qed.

Lemma fit_cov_quad_form xdata ydata sigma popt pcov gm gb :
  curve_fit xdata ydata sigma = Fit popt pcov ->
  quad_form pcov gm gb
  = quad_form (normal_matrix (zip3 xdata ydata sigma)) (- gb) gm
    / det2 (normal_matrix (zip3 xdata ydata sigma)).
Proof.
  intros Hfit.
  destruct (curve_fit_Fit_inv _ _ _ _ _ Hfit) as (_ & _ & _ & Hd & _ & ->).
  unfold quad_form, inv2. cbn [c00 c01 c10 c11]. field. exact Hd.
Qed.

Lemma fit_cov_pos_def xdata ydata sigma popt pcov gm gb :
  Forall (fun s => 0 < s) sigma ->
  curve_fit xdata ydata sigma = Fit popt pcov ->
  gm <> 0 \/ gb <> 0 ->
  0 < quad_form pcov gm gb.
Proof.
  intros Hpos Hfit Hnz.
  pose proof (fit_regular_det _ _ _ _ _ Hpos Hfit) as Hd.
  rewrite (fit_cov_quad_form _ _ _ _ _ gm gb Hfit).
  apply Rmult_lt_0_compat.
  - apply normal_quad_form_pos; [exact Hd|].
    destruct Hnz as [H | H]; [right; exact H | left; lra].
  - apply Rinv_0_lt_compat. exact Hd.
Qed.



Lemma zip3_map_y (f : R -> R) xs ss x y s :
  In (x, y, s) (zip3 xs (map f xs) ss) -> y = f x.
Proof.
  revert ss; induction xs as [|x0 xs IH]; intros [|s0 ss]; simpl; try tauto.
  intros [H | H].
  - inversion H; subst; reflexivity.
  - apply (IH ss H).
Qed.

Lemma chi2_nonneg pts m b : 0 <= chi2 pts m b.
Proof.
  unfold chi2. apply sum_over_nonneg. intros; apply Rle_0_sqr.
Qed.

(** Ordinates on a line are fitted by that line. *)
Lemma curve_fit_on_line xdata sigma m b :
  length sigma = length xdata ->
  Forall (fun s => 0 < s) sigma ->
  (exists x1 x2, In x1 xdata /\ In x2 xdata /\ x1 <> x2) ->
  exists pcov,
    curve_fit xdata (map (fun x => linear_model x m b) xdata) sigma
    = Fit (m, b) pcov.
Proof.
  intros Hs Hpos Hdist.
  set (ydata := map (fun x => linear_model x m b) xdata).
  assert (Hx : length xdata = length ydata)
    by (unfold ydata; rewrite length_map; reflexivity).
  assert (Hs' : length sigma = length ydata) by congruence.
  destruct (distinct_x_regular xdata ydata sigma Hx Hs' Hpos Hdist) as [Hn Hd].
  set (pts := zip3 xdata ydata sigma) in *.
  assert (Hd' : det2 (normal_matrix pts) <> 0) by lra.
  exists (inv2 (normal_matrix pts)).
  rewrite (curve_fit_regular xdata ydata sigma Hx Hs' Hn Hd'). fold pts.
  destruct (mat2_apply (inv2 (normal_matrix pts)) (normal_rhs pts))
    as [m0 b0] eqn:Hsol.
  destruct (normal_solution_minimum pts m0 b0 Hd (eq_sym Hsol)) as [Hmin Huniq].
  assert (Hzero : chi2 pts m b = 0).
  { unfold chi2. rewrite (sum_over_ext _ (fun _ => 0 * 0)).
    - rewrite sum_over_scal. ring.
    - intros [[x y] s] Hin. unfold pts, ydata in Hin.
      apply zip3_map_y in Hin. subst y.
      unfold weighted_residual, Rsqr, Rdiv. ring. }
  assert (E : chi2 pts m b = chi2 pts m0 b0).
  { pose proof (Hmin m b). pose proof (chi2_nonneg pts m0 b0). lra. }
  destruct (Huniq m b E) as [-> ->]. reflexivity.
Qed.

(** X2.  Noiseless data are recovered: for two or more points with
    different x-values lying on the line [y = m*x + b], and any positive
    sigmas, [curve_fit] returns exactly [(m, b)]. *)
Theorem curve_fit_recovers_line (xdata sigma : list R) (m b : R) :
  length sigma = length xdata ->
  Forall (fun s => 0 < s) sigma ->
  (exists x1 x2, In x1 xdata /\ In x2 xdata /\ x1 <> x2) ->
  exists pcov,
    curve_fit xdata (map (fun x => linear_model x m b) xdata) sigma
    = Fit (m, b) pcov.
Proof. apply curve_fit_on_line. Qed.

Lemma curve_fit_recovers_line_witness :
  exists pcov,
    curve_fit [0; 10; 20]
              (map (fun x => linear_model x 4 1000) [0; 10; 20]) [5; 5; 5]
    = Fit (4, 1000) pcov.
Proof.
  apply (curve_fit_recovers_line [0; 10; 20] [5; 5; 5] 4 1000).
  - reflexivity.
  - repeat constructor; lra.
  - exists 0, 10. simpl. split; [|split]; [auto | auto | lra].
Defined.

End ExactData.

(** ** The heating script on its tables *)

Section HeatingTables.
Import Array Scipy Uncertainties.

Lemma repeat_positive (s : R) (n : nat) :
  0 < s -> Forall (fun t => 0 < t) (repeat s n).
Proof.
  intros Hs. induction n; simpl; constructor; auto.
Qed.




(** With one sigma for every point the sums of the normal equations are
    plain sums over the arrays. *)
Lemma uniform_sums (a b : list R) (s : R) :
  length a = length b ->
  sum_over (fun p => jac_b p * jac_m p) (zip3 a b (repeat s (length b)))
  = / s * / s * sum a
  /\ sum_over (fun p => jac_b p * jac_b p) (zip3 a b (repeat s (length b)))
     = / s * / s * INR (length b)
  /\ sum_over (fun p => jac_b p * y_w p) (zip3 a b (repeat s (length b)))
     = / s * / s * sum b.
Proof.
  revert b; induction a as [|x a IH]; intros [|y b] Hl; try discriminate.
  - unfold sum_over; simpl. repeat split; ring.
  - injection Hl as Hl. destruct (IH b Hl) as (E1 & E2 & E3).
    change (length (y :: b)) with (S (length b)).
    rewrite S_INR. cbn [repeat zip3].
    rewrite !sum_over_cons, E1, E2, E3.
    unfold jac_b, jac_m, y_w, sum, Rdiv; simpl. repeat split; ring.
Qed.

(** X3.  Whenever the fit of the heating script returns, the fitted line
    passes through the point of the mean temperature and the mean
    pressure. *)
Theorem heating_line_through_means
  (T_celsius p_hPa : list R) (m b : R) (pcov : mat2) :
  Heating.fit T_celsius p_hPa = Fit (m, b) pcov ->
  linear_model (sum T_celsius / INR (length T_celsius)) m b
  = sum p_hPa / INR (length p_hPa).
Proof.
  unfold Heating.fit. intros Hfit.
  destruct (curve_fit_Fit_inv _ _ _ _ _ Hfit) as (Hx & Hs & Hn & Hd & Hp & _).
  destruct (inv2_solves _ (normal_rhs (zip3 T_celsius p_hPa
                                        (repeat Heating.SIGMA_P (length p_hPa))))
              Hd) as [_ N2].
  rewrite <- Hp in N2. cbn [fst snd] in N2.
  destruct (uniform_sums T_celsius p_hPa Heating.SIGMA_P Hx) as (E1 & E2 & E3).
  unfold normal_matrix, normal_rhs in N2. cbn [c10 c11 snd] in N2.
  rewrite E1, E2, E3 in N2.
  assert (Hsp : / Heating.SIGMA_P * / Heating.SIGMA_P <> 0)
    by (unfold Heating.SIGMA_P; lra).
  assert (N3 : sum T_celsius * m + INR (length p_hPa) * b = sum p_hPa).
  { apply (Rmult_eq_reg_l (/ Heating.SIGMA_P * / Heating.SIGMA_P));
      [|exact Hsp]. rewrite <- N2. ring. }
  assert (Hpos : 0 < INR (length p_hPa)) by (apply lt_0_INR; lia).
  rewrite Hx. unfold linear_model. rewrite <- N3. field. lra.
Qed.

Lemma heating_line_through_means_witness :
  linear_model (sum [0; 10; 20; 30] / INR (length [0; 10; 20; 30])) 4 1000
  = sum [1000; 1040; 1080; 1120] / INR (length [1000; 1040; 1080; 1120]).
Proof.
  apply (heating_line_through_means [0; 10; 20; 30] [1000; 1040; 1080; 1120]
           4 1000 (Mat2 (1 / 20) (- (3 / 4)) (- (3 / 4)) (35 / 2))).
  exact heating_example_fit.
Defined.









End HeatingTables.

(** ** The specific-heat script on its tables *)

Section SpecificHeatTables.
Import Array Scipy Uncertainties.







Lemma nth_map_R (f : R -> R) (l : list R) (i : nat) :
  (i < length l)%nat -> nth i (map f l) 0 = f (nth i l 0).
Proof.
  intros Hi. rewrite (nth_indep _ 0 (f 0)) by (rewrite length_map; exact Hi).
  apply map_nth.
Qed.



End SpecificHeatTables.

(** ** The resistance thermometer of the cooling script *)

Section Thermometer.
Import Array Scipy Uncertainties.

Lemma B_negative : Cooling.B < 0.
Proof. unfold Cooling.B. lra. Qed.

Lemma A_positive : 0 < Cooling.A.
Proof. unfold Cooling.A. lra. Qed.

Lemma discriminant_decreasing R1 R2 :
  R1 < R2 -> Cooling.discriminant R2 < Cooling.discriminant R1.
Proof.
  intros H. unfold Cooling.discriminant, Cooling.A, Cooling.B, Cooling.R0. lra.
Qed.

(** X10.  The temperature computed from a resistance solves the quadratic
    characteristic of the sensor: [R0 * (1 + A*T + B*T^2) = R], whenever the
    discriminant has a square root. *)
Theorem resistance_to_temperature_solves (R_ohm : R) :
  0 <= Cooling.discriminant R_ohm ->
  Cooling.R0
  * (1 + Cooling.A * Cooling.resistance_to_temperature R_ohm
     + Cooling.B * Cooling.resistance_to_temperature R_ohm ^ 2)
  = R_ohm.
Proof.
  intros HD. unfold Cooling.resistance_to_temperature.
  pose proof (sqrt_sqrt _ HD) as Hs.
  set (s := sqrt (Cooling.discriminant R_ohm)) in *. clearbody s.
  assert (ER : R_ohm
               = Cooling.R0
                 * (1 - (Cooling.A ^ 2 - s * s) / (4 * Cooling.B))).
  { rewrite Hs. unfold Cooling.discriminant, Cooling.A, Cooling.B, Cooling.R0.
    field. }
  rewrite ER at 1. unfold Cooling.A, Cooling.B, Cooling.R0. field.
Qed.

Lemma resistance_to_temperature_solves_witness :
  Cooling.R0
  * (1 + Cooling.A * Cooling.resistance_to_temperature 1100
     + Cooling.B * Cooling.resistance_to_temperature 1100 ^ 2)
  = 1100.
Proof.
  apply (resistance_to_temperature_solves 1100).
  unfold Cooling.discriminant, Cooling.A, Cooling.B, Cooling.R0. lra.
Defined.

(** X11.  Round trip: the resistance of the sensor at a temperature [T]
    below the vertex of the characteristic, [A + 2*B*T >= 0], is converted
    back to [T]. *)
Theorem resistance_to_temperature_inverts (T : R) :
  0 <= Cooling.A + 2 * Cooling.B * T ->
  Cooling.resistance_to_temperature
    (Cooling.R0 * (1 + Cooling.A * T + Cooling.B * T ^ 2))
  = T.
Proof.
  intros HT. unfold Cooling.resistance_to_temperature.
  assert (ED : Cooling.discriminant
                 (Cooling.R0 * (1 + Cooling.A * T + Cooling.B * T ^ 2))
               = (Cooling.A + 2 * Cooling.B * T)
                 * (Cooling.A + 2 * Cooling.B * T)).
  { unfold Cooling.discriminant, Cooling.R0. field. }
  rewrite ED, sqrt_square by exact HT.
  unfold Cooling.B. field.
Qed.

Lemma resistance_to_temperature_inverts_witness :
  Cooling.resistance_to_temperature
    (Cooling.R0 * (1 + Cooling.A * 100 + Cooling.B * 100 ^ 2))
  = 100.
Proof.
  apply (resistance_to_temperature_inverts 100).
  unfold Cooling.A, Cooling.B. lra.
Defined.

Lemma resistance_to_temperature_increasing R1 R2 :
  R1 < R2 -> 0 <= Cooling.discriminant R2 ->
  Cooling.resistance_to_temperature R1 < Cooling.resistance_to_temperature R2.
Proof.
  intros Hlt HD. unfold Cooling.resistance_to_temperature.
  pose proof (discriminant_decreasing R1 R2 Hlt) as Hd.
  assert (Hs : sqrt (Cooling.discriminant R2) < sqrt (Cooling.discriminant R1))
    by (apply sqrt_lt_1_alt; lra).
  pose proof B_negative as HB.
  assert (Hi : / (2 * Cooling.B) < 0) by (apply Rinv_lt_0_compat; lra).
  unfold Rdiv. nra.
Qed.

(** A resistance that is not negative has a temperature above absolute
    zero. *)
Lemma temperature_above_absolute_zero R_ohm :
  0 <= R_ohm -> 0 <= Cooling.discriminant R_ohm ->
  - (27315 / 100) < Cooling.resistance_to_temperature R_ohm.
Proof.
  intros HR HD. unfold Cooling.resistance_to_temperature.
  set (c0 := Cooling.A - 2 * Cooling.B * (27315 / 100)).
  assert (Hc0 : 0 < c0) by (unfold c0, Cooling.A, Cooling.B; lra).
  assert (Hmax : Cooling.discriminant R_ohm < c0 * c0).
  { unfold c0, Cooling.discriminant, Cooling.A, Cooling.B, Cooling.R0 in *.
    lra. }
  assert (Hs : sqrt (Cooling.discriminant R_ohm) < c0).
  { rewrite <- (sqrt_square c0) by lra. apply sqrt_lt_1_alt. lra. }
  pose proof B_negative as HB.
  assert (Hi : / (2 * Cooling.B) < 0) by (apply Rinv_lt_0_compat; lra).
  assert (E : - (27315 / 100) = (- Cooling.A + c0) / (2 * Cooling.B)).
  { unfold c0. field. lra. }
  rewrite E. unfold Rdiv.
  assert (0 < (c0 - sqrt (Cooling.discriminant R_ohm)) * - / (2 * Cooling.B))
    by (apply Rmult_lt_0_compat; lra).
  lra.
Qed.

(** X12.  The conversion is strictly increasing: of two resistances whose
    discriminants have a square root, the larger has the higher
    temperature; so different resistances have different temperatures, and
    a resistance that is not negative has a temperature above absolute zero
    ([-273.15] degrees Celsius). *)
Theorem resistance_to_temperature_monotone (R1 R2 : R) :
  0 <= Cooling.discriminant R1 -> 0 <= Cooling.discriminant R2 ->
  (R1 < R2 ->
   Cooling.resistance_to_temperature R1 < Cooling.resistance_to_temperature R2)
  /\ (Cooling.resistance_to_temperature R1
      = Cooling.resistance_to_temperature R2 -> R1 = R2)
  /\ (0 <= R1 -> - (27315 / 100) < Cooling.resistance_to_temperature R1).
Proof.
  intros H1 H2. split; [|split].
  - intros Hlt. apply resistance_to_temperature_increasing; assumption.
  - intros E. destruct (Rtotal_order R1 R2) as [Hlt | [Heq | Hgt]]; auto.
    + pose proof (resistance_to_temperature_increasing R1 R2 Hlt H2). lra.
    + pose proof (resistance_to_temperature_increasing R2 R1 Hgt H1). lra.
  - intros HR. apply temperature_above_absolute_zero; assumption.
Qed.

Lemma resistance_to_temperature_monotone_witness :
  (1000 < 1100 ->
   Cooling.resistance_to_temperature 1000
   < Cooling.resistance_to_temperature 1100)
  /\ (Cooling.resistance_to_temperature 1000
      = Cooling.resistance_to_temperature 1100 -> 1000 = 1100)
  /\ (0 <= 1000 -> - (27315 / 100) < Cooling.resistance_to_temperature 1000).
Proof.
  apply (resistance_to_temperature_monotone 1000 1100);
    unfold Cooling.discriminant, Cooling.A, Cooling.B, Cooling.R0; lra.
Defined.

End Thermometer.

(** ** The cooling script on its tables *)

Section CoolingTables.
Import Array Scipy Uncertainties.

Lemma cooling_lengths (R_ohm : list R) :
  length (Cooling.T_kelvin R_ohm) = length R_ohm
  /\ length (Cooling.sigma_T R_ohm) = length R_ohm
  /\ length (Cooling.x_val R_ohm) = length R_ohm
  /\ length (Cooling.x_err R_ohm) = length R_ohm.
Proof.
  unfold Cooling.x_err, Cooling.x_val, Cooling.sigma_T, Cooling.T_kelvin,
    Cooling.T_celsius.
  rewrite zipWith_length, !length_map, Nat.min_id. auto.
Qed.

Lemma cooling_y_lengths (p_bar : list R) :
  length (Cooling.y_val p_bar) = length p_bar
  /\ length (Cooling.y_err p_bar) = length p_bar.
Proof.
  unfold Cooling.y_val, Cooling.y_err, Cooling.sigma_p.
  rewrite zipWith_length, !length_map, Nat.min_id. auto.
Qed.

Lemma inverse_derivative (t : R) :
  t <> 0 -> derivable_pt_lim (fun u => 1 / u) t (- 1 / t²).
Proof.
  intros Ht.
  replace (- 1 / t²) with ((0 * t - 1 * 1) / t²)
    by (unfold Rsqr; field; exact Ht).
  apply (derivable_pt_lim_div (fun _ => 1) (fun u => u)).
  - apply derivable_pt_lim_const.
  - apply derivable_pt_lim_id.
  - exact Ht.
Qed.

(** X13.  The errors of the Arrhenius plot are the first-order propagation
    of the measurement errors, point by point: [x_err] is [|d(1/T)/dT|]
    times [sigma_T] and [y_err] is [|d(ln p)/dp|] times [sigma_p]; and
    [sigma_T] is at least [1/3.85] at every temperature, so [x_err] is
    positive. *)
Theorem cooling_errors_first_order (df : dataframe) (i : nat) :
  (i < length df)%nat ->
  let p := nth i (map fst df) 0 in
  let T := nth i (Cooling.T_kelvin (map snd df)) 0 in
  let s_T := nth i (Cooling.sigma_T (map snd df)) 0 in
  let s_p := nth i (Cooling.sigma_p (map fst df)) 0 in
  0 < p -> T <> 0 ->
  nth i (Cooling.x_val (map snd df)) 0 = 1 / T
  /\ derivable_pt_lim (fun u => 1 / u) T (- 1 / T²)
  /\ nth i (Cooling.x_err (map snd df)) 0 = Rabs (- 1 / T²) * s_T
  /\ 1 / (385 / 100) <= s_T
  /\ 0 < nth i (Cooling.x_err (map snd df)) 0
  /\ nth i (Cooling.y_val (map fst df)) 0 = ln p
  /\ derivable_pt_lim ln p (/ p)
  /\ nth i (Cooling.y_err (map fst df)) 0 = Rabs (/ p) * s_p.
Proof.
  intros Hi. cbv zeta.
  destruct (cooling_lengths (map snd df)) as (LT & LS & LX & LE).
  rewrite length_map in LT, LS, LX, LE.
  set (p := nth i (map fst df) 0).
  set (T := nth i (Cooling.T_kelvin (map snd df)) 0).
  set (s_T := nth i (Cooling.sigma_T (map snd df)) 0).
  set (s_p := nth i (Cooling.sigma_p (map fst df)) 0).
  intros Hp HT.
  assert (Hf : (i < length (map fst df))%nat) by (rewrite length_map; exact Hi).
  assert (HsT : 1 / (385 / 100) <= s_T).
  { unfold s_T, Cooling.sigma_T.
    rewrite nth_map_R
      by (unfold Cooling.T_celsius; rewrite !length_map; exact Hi).
    set (Tc := nth i (Cooling.T_celsius (map snd df)) 0).
    rewrite <- (sqrt_square (1 / (385 / 100))) at 1 by lra.
    apply sqrt_le_1_alt.
    assert (0 <= (3 / 10 + 5 / 1000 * Tc) ^ 2) by apply pow2_ge_0.
    simpl. simpl in H. lra. }
  assert (HT2 : 0 < T²) by (apply Rlt_0_sqr; exact HT).
  assert (Ex : nth i (Cooling.x_err (map snd df)) 0 = Rabs (- 1 / T²) * s_T).
  { unfold Cooling.x_err. rewrite zipWith_nth by lia. fold s_T. fold T.
    rewrite Rabs_left.
    - unfold Rsqr. field. exact HT.
    - unfold Rdiv. assert (0 < / T²) by (apply Rinv_0_lt_compat; exact HT2).
      lra. }
  split.
  { unfold Cooling.x_val. rewrite nth_map_R by lia. reflexivity. }
  split; [apply inverse_derivative; exact HT|].
  split; [exact Ex|].
  split; [exact HsT|].
  split.
  { rewrite Ex. apply Rmult_lt_0_compat; [|lra].
    apply Rabs_pos_lt. unfold Rdiv.
    assert (0 < / T²) by (apply Rinv_0_lt_compat; exact HT2). lra. }
  split.
  { unfold Cooling.y_val. rewrite (nth_indep _ 0 (ln 0)) by (rewrite length_map; exact Hf).
    apply map_nth. }
  split; [apply derivable_pt_lim_ln; exact Hp|].
  unfold Cooling.y_err. rewrite zipWith_nth.
  - fold p. fold s_p. rewrite Rabs_right.
    + unfold Rdiv. ring.
    + left. apply Rinv_0_lt_compat. exact Hp.
  - unfold Cooling.sigma_p. rewrite length_map. exact Hf.
  - exact Hf.
Qed.

Lemma cooling_errors_first_order_witness :
  nth 0 (Cooling.x_val (map snd [(2, 1000)])) 0
  = 1 / nth 0 (Cooling.T_kelvin (map snd [(2, 1000)])) 0
  /\ derivable_pt_lim (fun u => 1 / u)
       (nth 0 (Cooling.T_kelvin (map snd [(2, 1000)])) 0)
       (- 1 / (nth 0 (Cooling.T_kelvin (map snd [(2, 1000)])) 0)²)
  /\ nth 0 (Cooling.x_err (map snd [(2, 1000)])) 0
     = Rabs (- 1 / (nth 0 (Cooling.T_kelvin (map snd [(2, 1000)])) 0)²)
       * nth 0 (Cooling.sigma_T (map snd [(2, 1000)])) 0
  /\ 1 / (385 / 100) <= nth 0 (Cooling.sigma_T (map snd [(2, 1000)])) 0
  /\ 0 < nth 0 (Cooling.x_err (map snd [(2, 1000)])) 0
  /\ nth 0 (Cooling.y_val (map fst [(2, 1000)])) 0
     = ln (nth 0 (map fst [(2, 1000)]) 0)
  /\ derivable_pt_lim ln (nth 0 (map fst [(2, 1000)]) 0)
       (/ nth 0 (map fst [(2, 1000)]) 0)
  /\ nth 0 (Cooling.y_err (map fst [(2, 1000)])) 0
     = Rabs (/ nth 0 (map fst [(2, 1000)]) 0)
       * nth 0 (Cooling.sigma_p (map fst [(2, 1000)])) 0.
Proof.
  apply (cooling_errors_first_order [(2, 1000)] 0).
  - simpl; lia.
  - simpl; lra.
  - simpl.
    pose proof (temperature_above_absolute_zero 1000) as H.
    assert (0 <= Cooling.discriminant 1000)
      by (unfold Cooling.discriminant, Cooling.A, Cooling.B, Cooling.R0; lra).
    assert (- (27315 / 100) < Cooling.resistance_to_temperature 1000)
      by (apply H; lra).
    lra.
Defined.

End CoolingTables.

(** ** When the cooling script reports, and what *)

Section CoolingReport.
Import Array Scipy Uncertainties.

Lemma y_err_constant (df : dataframe) :
  Forall (fun row => 0 < fst row) df ->
  Cooling.y_err (map fst df) = repeat (1 / 100) (length df).
Proof.
  unfold Cooling.y_err, Cooling.sigma_p.
  induction df as [|[p r] df IH]; simpl; intros H; auto.
  inversion H; subst. simpl in *. rewrite IH by assumption.
  f_equal. field. lra.
Qed.

Lemma sigma_eff_positive m ye xe :
  Forall (fun s => 0 < s) ye ->
  Forall (fun s => 0 < s) (Cooling.sigma_eff m ye xe).
Proof.
  unfold Cooling.sigma_eff. intros H. revert xe.
  induction H as [|y ye Hy Hye IH]; intros [|x xe]; simpl; constructor.
  - apply sqrt_lt_R0.
    assert (0 <= (m * x) ^ 2) by apply pow2_ge_0.
    assert (0 < y ^ 2) by (apply pow_lt; exact Hy).
    simpl in *. lra.
  - apply IH.
Qed.

Lemma finite_rows_positive_pressure (df : dataframe) :
  forallb Cooling.finite_row df = true ->
  Forall (fun row => 0 < fst row) df.
Proof.
  induction df as [|[p r] df IH]; simpl; intros H; constructor.
  - simpl. destruct (Rlt_dec 0 p); [assumption | discriminate].
  - apply IH. apply andb_true_iff in H. tauto.
Qed.

Lemma physical_row_finite (row : R * R) :
  0 < fst row -> 0 <= snd row -> 0 <= Cooling.discriminant (snd row) ->
  Cooling.finite_row row = true.
Proof.
  destruct row as [p r]; simpl. intros Hp Hr HD.
  destruct (Rlt_dec 0 p); [|contradiction].
  destruct (Rle_dec 0 (Cooling.discriminant r)); [|contradiction].
  destruct (Req_EM_T (Cooling.resistance_to_temperature r + 27315 / 100) 0)
    as [E|]; [|reflexivity].
  pose proof (temperature_above_absolute_zero r Hr HD). lra.
Qed.

(** Different resistances of physical rows have different [x_val]. *)
Lemma x_val_distinct (df : dataframe) :
  (forall row, In row df ->
     0 <= snd row /\ 0 <= Cooling.discriminant (snd row)) ->
  (exists r1 r2, In r1 df /\ In r2 df /\ snd r1 <> snd r2) ->
  exists x1 x2,
    In x1 (Cooling.x_val (map snd df)) /\ In x2 (Cooling.x_val (map snd df))
    /\ x1 <> x2.
Proof.
  intros Hphys (r1 & r2 & H1 & H2 & Hne).
  set (xof := fun R_ohm => 1 / (Cooling.resistance_to_temperature R_ohm
                                + 27315 / 100)).
  assert (Hin : forall row, In row df ->
                  In (xof (snd row)) (Cooling.x_val (map snd df))).
  { intros row Hrow. unfold Cooling.x_val, Cooling.T_kelvin, Cooling.T_celsius.
    rewrite !map_map. apply in_map_iff. exists row. split; [reflexivity|exact Hrow]. }
  exists (xof (snd r1)), (xof (snd r2)).
  split; [apply Hin; exact H1|]. split; [apply Hin; exact H2|].
  destruct (Hphys r1 H1) as [P1 D1]. destruct (Hphys r2 H2) as [P2 D2].
  pose proof (temperature_above_absolute_zero _ P1 D1) as A1.
  pose proof (temperature_above_absolute_zero _ P2 D2) as A2.
  unfold xof. intros E.
  assert (ET : Cooling.resistance_to_temperature (snd r1)
               = Cooling.resistance_to_temperature (snd r2)).
  { unfold Rdiv in E. rewrite !Rmult_1_l in E.
    apply Rinv_eq_reg in E. lra. }
  apply Hne.
  destruct (Rtotal_order (snd r1) (snd r2)) as [Hlt | [Heq | Hgt]]; auto.
  - pose proof (resistance_to_temperature_increasing _ _ Hlt D2). lra.
  - pose proof (resistance_to_temperature_increasing _ _ Hgt D1). lra.
Qed.

Lemma cooling_fit_regular (df : dataframe) :
  (forall row, In row df ->
     0 < fst row /\ 0 <= snd row /\ 0 <= Cooling.discriminant (snd row)) ->
  (exists r1 r2, In r1 df /\ In r2 df /\ snd r1 <> snd r2) ->
  forallb Cooling.finite_row df = true
  /\ exists popt pcov,
       Cooling.fit (Cooling.x_val (map snd df)) (Cooling.y_val (map fst df))
                   (Cooling.x_err (map snd df)) (Cooling.y_err (map fst df))
       = Fit popt pcov
       /\ 0 < c00 pcov.
Proof.
  intros Hphys Hdist.
  assert (Hfin : forallb Cooling.finite_row df = true).
  { apply forallb_forall. intros row Hrow.
    destruct (Hphys row Hrow) as (Hp & Hr & HD).
    apply physical_row_finite; assumption. }
  split; [exact Hfin|].
  pose proof (finite_rows_positive_pressure df Hfin) as Hpress.
  destruct (cooling_lengths (map snd df)) as (_ & _ & LX & LE).
  destruct (cooling_y_lengths (map fst df)) as (LY & LYE).
  rewrite length_map in LX, LE, LY, LYE.
  assert (Hx : exists x1 x2,
             In x1 (Cooling.x_val (map snd df))
             /\ In x2 (Cooling.x_val (map snd df)) /\ x1 <> x2).
  { apply x_val_distinct; auto. intros row Hrow.
    destruct (Hphys row Hrow) as (_ & Hr & HD). auto. }
  assert (Hye : Forall (fun s => 0 < s) (Cooling.y_err (map fst df))).
  { rewrite (y_err_constant df Hpress). apply repeat_positive. lra. }
  unfold Cooling.fit.
  destruct (distinct_x_regular (Cooling.x_val (map snd df))
              (Cooling.y_val (map fst df)) (Cooling.y_err (map fst df)))
    as [Hn Hd1]; auto; try congruence.
  rewrite (curve_fit_regular _ _ _) by (auto; try congruence; lra).
  set (m0 := fst _).
  pose proof (sigma_eff_positive m0 _ (Cooling.x_err (map snd df)) Hye) as Hse.
  assert (Lse : length (Cooling.sigma_eff m0 (Cooling.y_err (map fst df))
                          (Cooling.x_err (map snd df)))
                = length (Cooling.y_val (map fst df))).
  { unfold Cooling.sigma_eff. rewrite zipWith_length, LYE, LE, LY.
    apply Nat.min_id. }
  destruct (distinct_x_regular (Cooling.x_val (map snd df))
              (Cooling.y_val (map fst df))
              (Cooling.sigma_eff m0 (Cooling.y_err (map fst df))
                 (Cooling.x_err (map snd df))))
    as [_ Hd2]; auto; try congruence.
  eexists _, _. split.
  - apply curve_fit_regular; auto; try congruence. lra.
  - assert (Hfit : curve_fit (Cooling.x_val (map snd df))
                     (Cooling.y_val (map fst df))
                     (Cooling.sigma_eff m0 (Cooling.y_err (map fst df))
                        (Cooling.x_err (map snd df)))
                   = Fit _ _)
      by (apply curve_fit_regular; auto; try congruence; lra).
    assert (H := fit_cov_pos_def _ _ _ _ _ 1 0 Hse Hfit (or_introl R1_neq_R0)).
    unfold quad_form in H. lra.
Qed.

(** X14.  A table of physical rows (positive pressure, resistance not
    negative and with a real temperature) with two different resistances is
    always reported on: both passes of the fit are regular, and the sigmas
    reported for the slope and for the enthalpy are positive. *)
Theorem cooling_reports_physical_table (df : dataframe) :
  (forall row, In row df ->
     0 < fst row /\ 0 <= snd row /\ 0 <= Cooling.discriminant (snd row)) ->
  (exists r1 r2, In r1 df /\ In r2 df /\ snd r1 <> snd r2) ->
  exists r,
    Cooling.analysis df = Reported r
    /\ 0 < snd (Cooling.slope r)
    /\ 0 < snd (Cooling.Delta_H_kJ r).
Proof.
  intros Hphys Hdist.
  destruct (cooling_fit_regular df Hphys Hdist)
    as (Hfin & [m c] & pcov & Hfit & H00).
  unfold Cooling.analysis. rewrite Hfin. cbn [negb]. rewrite Hfit.
  unfold correlated_values. cbn [fst snd].
  eexists. split; [reflexivity|].
  cbn [Cooling.Delta_H_kJ Cooling.slope shown fst snd nominal].
  assert (Es : std_dev (Sources pcov 0) (UFloat m 1 0 0) = sqrt (c00 pcov))
    by exact (std_dev_slope (m, c) pcov 0).
  assert (Ec : std_dev (Sources pcov 0) (Cooling.Delta_H_kJ_of (UFloat m 1 0 0))
               = Rabs (- (Cooling.R_GAS / 1000))
                 * std_dev (Sources pcov 0) (UFloat m 1 0 0)).
  { apply std_dev_chain; simpl; unfold Rsqr; field. }
  assert (Hpos : 0 < sqrt (c00 pcov)) by (apply sqrt_lt_R0; exact H00).
  assert (Ek : Rabs (- (Cooling.R_GAS / 1000)) = Cooling.R_GAS / 1000).
  { rewrite Rabs_Ropp. apply Rabs_right. unfold Cooling.R_GAS. lra. }
  rewrite Ec, Ek, Es.
  split; [exact Hpos|].
  apply Rmult_lt_0_compat; [unfold Cooling.R_GAS; lra | exact Hpos].
Qed.

Lemma cooling_reports_physical_table_witness :
  exists r,
    Cooling.analysis [(1, 1000); (2, 1100)] = Reported r
    /\ 0 < snd (Cooling.slope r)
    /\ 0 < snd (Cooling.Delta_H_kJ r).
Proof.
  apply (cooling_reports_physical_table [(1, 1000); (2, 1100)]).
  - simpl. intros row [<- | [<- | []]]; simpl;
      unfold Cooling.discriminant, Cooling.A, Cooling.B, Cooling.R0; lra.
  - exists (1, 1000), (2, 1100). simpl.
    split; [|split]; [auto | auto | lra].
Defined.

(** X15.  Whenever the cooling script reports, the enthalpy is
    [-slope * R_GAS / 1000] with [R_GAS / 1000] times the sigma of the slope;
    it is positive exactly when the fitted slope is negative; and the
    deviation is its distance from the literature value in units of its
    sigma. *)
Theorem cooling_enthalpy_from_slope (df : dataframe) (r : Cooling.report) :
  Cooling.analysis df = Reported r ->
  fst (Cooling.Delta_H_kJ r) = - fst (Cooling.slope r) * Cooling.R_GAS / 1000
  /\ snd (Cooling.Delta_H_kJ r) = Cooling.R_GAS / 1000 * snd (Cooling.slope r)
  /\ (0 < fst (Cooling.Delta_H_kJ r) <-> fst (Cooling.slope r) < 0)
  /\ Cooling.sigma_dev r
     = Rabs (fst (Cooling.Delta_H_kJ r) - Cooling.LIT_VAL_100C)
       / snd (Cooling.Delta_H_kJ r).
Proof.
  unfold Cooling.analysis.
  destruct (negb (forallb Cooling.finite_row df)); [discriminate|].
  destruct (Cooling.fit _ _ _ _) as [[m c] pcov| |e]; try discriminate.
  unfold correlated_values. cbn [fst snd].
  intros H. inversion H; subst; clear H.
  cbn [Cooling.Delta_H_kJ Cooling.slope Cooling.sigma_dev shown fst snd nominal].
  assert (Ec : std_dev (Sources pcov 0) (Cooling.Delta_H_kJ_of (UFloat m 1 0 0))
               = Rabs (- (Cooling.R_GAS / 1000))
                 * std_dev (Sources pcov 0) (UFloat m 1 0 0)).
  { apply std_dev_chain; simpl; unfold Rsqr; field. }
  assert (Ek : Rabs (- (Cooling.R_GAS / 1000)) = Cooling.R_GAS / 1000).
  { rewrite Rabs_Ropp. apply Rabs_right. unfold Cooling.R_GAS. lra. }
  assert (En : nominal (Cooling.Delta_H_kJ_of (UFloat m 1 0 0))
               = - m * Cooling.R_GAS / 1000) by (simpl; field).
  rewrite En, Ec, Ek.
  split; [reflexivity|]. split; [reflexivity|].
  split; [|reflexivity].
  unfold Cooling.R_GAS. split; intros; lra.
Qed.

Lemma cooling_example_report :
  exists r, Cooling.analysis [(1, 1000); (2, 1100)] = Reported r.
Proof.
  destruct (cooling_fit_regular [(1, 1000); (2, 1100)])
    as (Hfin & popt & pcov & Hfit & _).
  - simpl. intros row [<- | [<- | []]]; simpl;
      unfold Cooling.discriminant, Cooling.A, Cooling.B, Cooling.R0; lra.
  - exists (1, 1000), (2, 1100). simpl.
    split; [|split]; [auto | auto | lra].
  - unfold Cooling.analysis. rewrite Hfin. cbn [negb]. rewrite Hfit.
    destruct popt. eexists. reflexivity.
Qed.

Lemma cooling_enthalpy_from_slope_witness :
  exists r,
    Cooling.analysis [(1, 1000); (2, 1100)] = Reported r
    /\ fst (Cooling.Delta_H_kJ r)
       = - fst (Cooling.slope r) * Cooling.R_GAS / 1000
    /\ snd (Cooling.Delta_H_kJ r)
       = Cooling.R_GAS / 1000 * snd (Cooling.slope r)
    /\ (0 < fst (Cooling.Delta_H_kJ r) <-> fst (Cooling.slope r) < 0)
    /\ Cooling.sigma_dev r
       = Rabs (fst (Cooling.Delta_H_kJ r) - Cooling.LIT_VAL_100C)
         / snd (Cooling.Delta_H_kJ r).
Proof.
  destruct cooling_example_report as [r E]. exists r.
  split; [exact E|].
  exact (cooling_enthalpy_from_slope [(1, 1000); (2, 1100)] r E).
Defined.

End CoolingReport.


(** ** What a run writes *)

Section RunOutputs.

Variable report : Type.
Variables FILENAME OUTPUT_DIR PLOT_FILE TXT_FILE : string.
Variable analysis : dataframe -> outcome report.


End RunOutputs.


(** ** Larger sigmas, larger slope variance *)

Section WiderSigmas.
Import Array Scipy Uncertainties.

(** The weighted spread of the abscissas about a centre does not grow when
    the sigmas do. *)
Lemma spread_antitone (xs ys ss ss' : list R) (c : R) :
  Forall2 (fun s s' => 0 < s <= s') ss ss' ->
  sum_over (fun p => (jac_m p - c * jac_b p)²) (zip3 xs ys ss')
  <= sum_over (fun p => (jac_m p - c * jac_b p)²) (zip3 xs ys ss).
Proof.
  intros H. revert xs ys.
  induction H as [|s s' ss ss' [Hs Hle] _ IH]; intros [|x xs] [|y ys];
    simpl; try lra.
  rewrite !sum_over_cons. specialize (IH xs ys).
  assert (Ht : (jac_m (x, y, s') - c * jac_b (x, y, s'))²
               <= (jac_m (x, y, s) - c * jac_b (x, y, s))²).
  { unfold jac_m, jac_b.
    replace (x / s' - c * (1 / s')) with ((x - c) * / s') by (field; lra).
    replace (x / s - c * (1 / s)) with ((x - c) * / s) by (field; lra).
    rewrite !Rsqr_mult.
    apply Rmult_le_compat_l; [apply Rle_0_sqr|].
    assert (Hi : / s' <= / s) by (apply Rinv_le_contravar; lra).
    assert (0 < / s') by (apply Rinv_0_lt_compat; lra).
    apply Rsqr_incr_1; lra. }
  lra.
Qed.

Lemma Forall2_positive_right (ss ss' : list R) :
  Forall2 (fun s s' => 0 < s <= s') ss ss' -> Forall (fun s => 0 < s) ss'.
Proof.
  induction 1 as [|s s' ss ss' [Hs Hle] _ IH]; constructor; auto. lra.
Qed.

Lemma Forall2_positive_left (ss ss' : list R) :
  Forall2 (fun s s' => 0 < s <= s') ss ss' -> Forall (fun s => 0 < s) ss.
Proof.
  induction 1 as [|s s' ss ss' [Hs Hle] _ IH]; constructor; auto.
Qed.

(** Of two fits of the same points, the one with the larger sigmas has the
    larger variance of the slope. *)
Lemma slope_variance_monotone xs ys ss ss' popt pcov popt' pcov' :
  Forall2 (fun s s' => 0 < s <= s') ss ss' ->
  curve_fit xs ys ss = Fit popt pcov ->
  curve_fit xs ys ss' = Fit popt' pcov' ->
  c00 pcov <= c00 pcov'.
Proof.
  intros H2 Hfit Hfit'.
  pose proof (Forall2_positive_left _ _ H2) as Hpos.
  pose proof (Forall2_positive_right _ _ H2) as Hpos'.
  pose proof (fit_regular_det _ _ _ _ _ Hpos Hfit) as Hd.
  pose proof (fit_regular_det _ _ _ _ _ Hpos' Hfit') as Hd'.
  destruct (curve_fit_Fit_inv _ _ _ _ _ Hfit) as (Hx & Hs & Hn & _ & _ & ->).
  destruct (curve_fit_Fit_inv _ _ _ _ _ Hfit') as (_ & Hs' & _ & _ & _ & ->).
  set (pts := zip3 xs ys ss) in *. set (pts' := zip3 xs ys ss') in *.
  assert (Hne : pts <> []).
  { intros E. pose proof (zip3_length xs ys ss Hx Hs) as L.
    fold pts in L. rewrite E in L. simpl in L. lia. }
  assert (Hne' : pts' <> []).
  { intros E. pose proof (zip3_length xs ys ss' Hx Hs') as L.
    fold pts' in L. rewrite E in L. simpl in L. lia. }
  pose proof (c11_pos pts Hne (positive_sigma_points _ _ _ Hpos)) as H11.
  pose proof (c11_pos pts' Hne' (positive_sigma_points _ _ _ Hpos')) as H11'.
  set (c := c01 (normal_matrix pts) / c11 (normal_matrix pts)).
  pose proof (det_spread pts c) as E.
  pose proof (det_spread pts' c) as E'.
  assert (Ec : c01 (normal_matrix pts) - c * c11 (normal_matrix pts) = 0)
    by (unfold c; field; lra).
  rewrite Ec in E. unfold Rsqr at 2 in E. rewrite Rmult_0_l, Rplus_0_r in E.
  assert (Hsq : 0 <= (c01 (normal_matrix pts') - c * c11 (normal_matrix pts'))²)
    by apply Rle_0_sqr.
  pose proof (spread_antitone xs ys ss ss' c H2) as Hq.
  fold pts pts' in Hq.
  set (Q := sum_over (fun p => (jac_m p - c * jac_b p)²) pts) in *.
  set (Q' := sum_over (fun p => (jac_m p - c * jac_b p)²) pts') in *.
  unfold inv2. cbn [c00].
  set (a := c11 (normal_matrix pts)) in *.
  set (a' := c11 (normal_matrix pts')) in *.
  set (d := det2 (normal_matrix pts)) in *.
  set (d' := det2 (normal_matrix pts')) in *.
  clearbody a a' d d' Q Q'.
  (* d = a*Q, d' <= a'*Q', Q' <= Q: a/d = 1/Q <= 1/Q' <= a'/d' *)
  assert (HQ : 0 < Q) by nra.
  assert (HQ' : 0 < Q') by nra.
  apply Rle_trans with (/ Q).
  - right. rewrite <- E. field. split; lra.
  - apply Rle_trans with (/ Q').
    + apply Rinv_le_contravar; lra.
    + apply Rmult_le_reg_r with (d' * Q'); [nra|].
      replace (/ Q' * (d' * Q')) with d' by (field; lra).
      replace (a' / d' * (d' * Q')) with (a' * Q') by (field; lra).
      lra.
Qed.

Lemma sigma_eff_wider m ye xe :
  Forall (fun s => 0 < s) ye -> length xe = length ye ->
  Forall2 (fun s s' => 0 < s <= s') ye (Cooling.sigma_eff m ye xe).
Proof.
  unfold Cooling.sigma_eff. intros H. revert xe.
  induction H as [|y ye Hy Hye IH]; intros [|x xe] Hl; simpl in *;
    try discriminate; constructor.
  - split; [exact Hy|].
    rewrite <- (sqrt_square y) at 1 by lra. apply sqrt_le_1_alt.
    assert (0 <= (m * x) ^ 2) by apply pow2_ge_0. simpl in *. lra.
  - apply IH. lia.
Qed.

(** X17.  Folding the errors of the abscissas into the sigmas never makes
    the slope look more certain: the sigma of the slope after the second
    pass of the cooling script is at least the sigma of the slope after the
    first pass. *)
Theorem cooling_second_pass_slope_sigma
  (x y x_err y_err : list R) (popt0 popt : R * R) (pcov0 pcov : mat2) :
  Forall (fun s => 0 < s) y_err -> length x_err = length y_err ->
  curve_fit x y y_err = Fit popt0 pcov0 ->
  Cooling.fit x y x_err y_err = Fit popt pcov ->
  std_dev (Sources pcov0 0) (fst (correlated_values popt0))
  <= std_dev (Sources pcov 0) (fst (correlated_values popt)).
Proof.
  intros Hpos Hl H1 H2. unfold Cooling.fit in H2. rewrite H1 in H2.
  rewrite !std_dev_slope. apply sqrt_le_1_alt.
  apply (slope_variance_monotone x y y_err
           (Cooling.sigma_eff (fst popt0) y_err x_err) popt0 pcov0 popt pcov);
    auto.
  apply sigma_eff_wider; assumption.
Qed.

Lemma cooling_example_two_passes :
  Cooling.fit [0; 1; 2] [0; 0; 3] [0; 0; 8 / 9] [1; 1; 1]
  = Fit (81 / 70, - (27 / 70))
        (Mat2 (59 / 70) (- (43 / 70)) (- (43 / 70)) (61 / 70)).
Proof.
  unfold Cooling.fit. rewrite third_pass_first. cbn [fst].
  rewrite third_pass_sigma_2. exact third_pass_second.
Qed.

Lemma cooling_second_pass_slope_sigma_witness :
  std_dev (Sources (Mat2 (1 / 2) (- (1 / 2)) (- (1 / 2)) (5 / 6)) 0)
          (fst (correlated_values (3 / 2, - (1 / 2))))
  <= std_dev (Sources (Mat2 (59 / 70) (- (43 / 70)) (- (43 / 70)) (61 / 70)) 0)
             (fst (correlated_values (81 / 70, - (27 / 70)))).
Proof.
  apply (cooling_second_pass_slope_sigma [0; 1; 2] [0; 0; 3] [0; 0; 8 / 9]
           [1; 1; 1]).
  - repeat constructor; lra.
  - reflexivity.
  - exact third_pass_first.
  - exact cooling_example_two_passes.
Defined.

End WiderSigmas.

(** ** The zero of the temperature scale *)

Section TemperatureShift.
Import Array Scipy Uncertainties.





End TemperatureShift.
